(** * URL migration service: a model of [url_migration_service.py]

    The service polls two MongoDB collections, finds the documents whose
    URL-bearing fields mention an old URL prefix, rewrites those fields in
    memory and writes the documents back, one [update_one] per document.

    The development follows the source file top to bottom:
    - Python strings and the three [str] operations the service uses
      ([in], [startswith]-style prefix test, [replace]);
    - documents as finite maps from field names to BSON values;
    - [replace_url_in_dict], the pure in-memory rewrite;
    - the query the service builds and a model of the store's pattern dialect;
    - the pymongo interface as a type class over an abstract world, with an
      error-and-trace monad for the methods of [URLMigrationService];
    - a small in-memory store used to run the methods on concrete inputs. *)

From stdpp Require Import gmap strings list fin_maps.
From Stdlib Require Import ZArith Ascii String.

Local Open Scope string_scope.
Local Open Scope list_scope.
Local Open Scope Z_scope.

(** ** Python strings *)

Module PyStr.

(** [sub in s] for two [str] values: [sub] starts at some position of [s]. *)
Fixpoint str_in (sub s : string) : bool :=
  String.prefix sub s ||
  match s with
  | EmptyString => false
  | String _ s' => str_in sub s'
  end.

(** [s[n:]] *)
Fixpoint drop (n : nat) (s : string) : string :=
  match n, s with
  | O, _ => s
  | S _, EmptyString => EmptyString
  | S k, String _ s' => drop k s'
  end.

(** [s.replace("", new)]: [new] goes before every character and at the end. *)
Fixpoint interleave (new s : string) : string :=
  match s with
  | EmptyString => new
  | String c s' => new +:+ String c (interleave new s')
  end.

(** [s.replace(old, new)] for a non-empty [old]: a left-to-right scan.
    [skip] counts the characters of a match that are still to be passed
    over, so that matches never overlap. *)
Fixpoint replace_from (old new : string) (skip : nat) (s : string) : string :=
  match s with
  | EmptyString => EmptyString
  | String c s' =>
      match skip with
      | S k => replace_from old new k s'
      | O =>
          if String.prefix old s
          then new +:+ replace_from old new (String.length old - 1) s'
          else String c (replace_from old new 0 s')
      end
  end.

(** [s.replace(old, new)] *)
Definition replace (s old new : string) : string :=
  match old with
  | EmptyString => interleave new s
  | String _ _ => replace_from old new 0 s
  end.

(** [sep.join(pieces)] *)
Fixpoint join (sep : string) (pieces : list string) : string :=
  match pieces with
  | [] => EmptyString
  | [p] => p
  | p :: ps => p +:+ sep +:+ join sep ps
  end.

(** ASCII lower-casing, for case-insensitive comparison. *)
Definition lower (c : ascii) : ascii :=
  let n := nat_of_ascii c in
  if (Nat.leb 65 n && Nat.leb n 90)%bool then ascii_of_nat (n + 32) else c.

Fixpoint lower_str (s : string) : string :=
  match s with
  | EmptyString => EmptyString
  | String c s' => String (lower c) (lower_str s')
  end.

(** [sub.lower() in s.lower()] *)
Definition str_in_ci (sub s : string) : bool :=
  str_in (lower_str sub) (lower_str s).

End PyStr.

(** ** BSON values and documents *)

(** The values a field of a stored document can hold. [VOther] stands for
    every other BSON value (array, embedded document, binary, ...): the
    service only asks such a value whether it is a [str]. *)
Inductive value :=
  | VNull
  | VBool (b : bool)
  | VInt (n : Z)
  | VStr (s : string)
  | VDate (t : Z)
  | VObjectId (oid : string)
  | VOther (truthy : bool) (repr : string).

#[global] Instance value_eq_dec : EqDecision value.
Proof. solve_decision. Defined.

(** Python truthiness of a value: what [if v] tests. *)
Definition truthy (v : value) : bool :=
  match v with
  | VNull => false
  | VBool b => b
  | VInt n => negb (Z.eqb n 0)
  | VStr s => negb (String.eqb s EmptyString)
  | VDate _ => true
  | VObjectId _ => true
  | VOther t _ => t
  end.

(** [isinstance(v, str)] *)
Definition is_str (v : value) : bool :=
  match v with VStr _ => true | _ => false end.

(** A document is a [dict] from field names to values. *)
Abbreviation document := (gmap string value).

(** ** [replace_url_in_dict] *)

Section Rewrite.

(** [self.old_url], [self.new_url] *)
Variables (old_url new_url : string).

(** One turn of the [for field in fields] loop, on the pair
    [(data, modified)]. *)
Definition replace_url_in_field (field : string) (st : document * bool)
  : document * bool :=
  let '(data, modified) := st in
  match data !! field with
  | Some v =>
      if truthy v && is_str v then
        match v with
        | VStr s =>
            if PyStr.str_in old_url s
            then (<[field := VStr (PyStr.replace s old_url new_url)]> data, true)
            else (data, modified)
        | _ => (data, modified)
        end
      else (data, modified)
  | None => (data, modified)
  end.

(** [replace_url_in_dict(data, fields)]: returns [(data, modified)]. *)
Definition replace_url_in_dict (data : document) (fields : list string)
  : document * bool :=
  fold_left (fun st field => replace_url_in_field field st) fields (data, false).

End Rewrite.

(** ** The candidate query *)

(** [{field: {'$regex': ..., '$options': ...}}] *)
Record field_regex := FieldRegex {
  fr_field : string;
  fr_regex : string;
  fr_options : string
}.

(** [{'$or': [...]}] *)
Record query := Or { or_clauses : list field_regex }.

#[global] Instance field_regex_eq_dec : EqDecision field_regex.
Proof. solve_decision. Defined.

#[global] Instance query_eq_dec : EqDecision query.
Proof. solve_decision. Defined.

(** The query both [process_*_collection] methods build from their
    [url_fields]. In a Python literal ['\\/'] is a backslash and a slash. *)
Definition candidate_query (old_url : string) (url_fields : list string) : query :=
  Or (map (fun field =>
             FieldRegex field (PyStr.replace old_url "/" "\/") "i")
          url_fields).

(** ** The store's pattern dialect

    MongoDB hands [$regex] to a Perl-compatible matcher. The part of that
    dialect modelled here: a character stands for itself, [.] stands for any
    character but a line feed, a backslash before a character that is
    neither a letter nor a digit makes that character stand for itself, and
    a question mark makes the item before it optional. Patterns that use
    anything else ([^ $ * + ( ) [ ] { } |], escapes such as [\d], a question
    mark with nothing to apply to or after another one) are outside the
    model: [parse] answers [None]. *)
Module Regex.

Inductive atom := Lit (c : ascii) | AnyChar.

(** What a pattern is read into: an item, or the question mark. *)
Inductive token := TAtom (a : atom) | TOpt.

Definition is_alnum (c : ascii) : bool :=
  let n := nat_of_ascii c in
  ((Nat.leb 48 n && Nat.leb n 57) || (Nat.leb 65 n && Nat.leb n 90)
   || (Nat.leb 97 n && Nat.leb n 122))%bool.

Definition is_meta (c : ascii) : bool :=
  bool_decide (c ∈ list_ascii_of_string "^$*+()[]{}|").

Fixpoint tokenize (p : string) : option (list token) :=
  match p with
  | EmptyString => Some []
  | String c rest =>
      if bool_decide (c = "\"%char) then
        match rest with
        | EmptyString => None
        | String c' rest' =>
            if is_alnum c' then None else cons (TAtom (Lit c')) <$> tokenize rest'
        end
      else if bool_decide (c = "."%char) then cons (TAtom AnyChar) <$> tokenize rest
      else if bool_decide (c = "?"%char) then cons TOpt <$> tokenize rest
      else if is_meta c then None
      else cons (TAtom (Lit c)) <$> tokenize rest
  end.

(** Attaches each question mark to the item before it: the pattern as a
    list of items, each with the mark of being optional. *)
Fixpoint group (ts : list token) : option (list (atom * bool)) :=
  match ts with
  | [] => Some []
  | TOpt :: _ => None
  | TAtom a :: TOpt :: rest => cons (a, true) <$> group rest
  | TAtom a :: rest => cons (a, false) <$> group rest
  end.

Definition parse (p : string) : option (list (atom * bool)) :=
  ts ← tokenize p; group ts.

Definition atom_matches (ci : bool) (a : atom) (c : ascii) : bool :=
  match a with
  | Lit x => if ci then bool_decide (PyStr.lower x = PyStr.lower c)
             else bool_decide (x = c)
  | AnyChar => negb (bool_decide (c = "010"%char))
  end.

(** The items match a prefix of [s]: the first item takes a character and
    the rest matches what follows, or the first item is optional and the
    rest matches from here. *)
Fixpoint match_here (ci : bool) (items : list (atom * bool)) (s : string) : bool :=
  match items with
  | [] => true
  | (a, optional) :: rest =>
      if match s with
         | EmptyString => false
         | String c s' =>
             if atom_matches ci a c then match_here ci rest s' else false
         end
      then true
      else if optional then match_here ci rest s else false
  end.

(** The items match somewhere in [s] (patterns are not anchored). *)
Fixpoint search (ci : bool) (items : list (atom * bool)) (s : string) : bool :=
  match_here ci items s ||
  match s with
  | EmptyString => false
  | String _ s' => search ci items s'
  end.

(** [$options]: only the empty string and ["i"] are modelled. *)
Definition case_insensitive (options : string) : option bool :=
  if String.eqb options "" then Some false
  else if String.eqb options "i" then Some true
  else None.

Definition regex_search (pattern options s : string) : option bool :=
  items ← parse pattern;
  ci ← case_insensitive options;
  Some (search ci items s).

(** A character that stands for itself in a pattern, the slash among
    them. *)
Definition plain (c : ascii) : bool :=
  negb (is_meta c) && negb (bool_decide (c = "."%char))
  && negb (bool_decide (c = "\"%char)) && negb (bool_decide (c = "?"%char)).


(** Plain characters and dots: what a URL of a host and a port is made
    of. *)
Fixpoint dotted_str (s : string) : bool :=
  match s with
  | EmptyString => true
  | String c s' => (plain c || bool_decide (c = "."%char)) && dotted_str s'
  end.

(** The item of a plain character or a dot, and the items of a string of
    them. *)
Definition atom_of (c : ascii) : atom :=
  if bool_decide (c = "."%char) then AnyChar else Lit c.

Definition items_of (s : string) : list (atom * bool) :=
  (fun c => (atom_of c, false)) <$> list_ascii_of_string s.

End Regex.

(** A clause selects a document when the field holds a string the pattern
    matches. *)
Definition clause_matches (c : field_regex) (doc : document) : option bool :=
  match doc !! fr_field c with
  | Some (VStr s) => Regex.regex_search (fr_regex c) (fr_options c) s
  | _ =>
      (* the pattern must still be one the store accepts *)
      _ ← Regex.regex_search (fr_regex c) (fr_options c) "";
      Some false
  end.

(** [$or]: some clause selects the document. [None] when a pattern is outside
    the modelled dialect. *)
Fixpoint or_matches (cs : list field_regex) (doc : document) : option bool :=
  match cs with
  | [] => Some false
  | c :: cs' =>
      b ← clause_matches c doc;
      b' ← or_matches cs' doc;
      Some (b || b')
  end.

Definition query_matches (q : query) (doc : document) : option bool :=
  or_matches (or_clauses q) doc.

(** ** Exceptions, results and the pymongo interface *)

(** The exception classes that the control flow of the service tells apart:
    what pymongo raises, what [doc['_id']] raises on a document without the
    key, what [self.db[name]] raises while [self.db] is [None], and the
    interrupt from the keyboard. All but [KeyboardInterrupt] derive from
    [Exception]. *)
Inductive exn := PyMongoError | KeyError | TypeError | KeyboardInterrupt.

#[global] Instance exn_eq_dec : EqDecision exn.
Proof. solve_decision. Defined.

Definition is_Exception (e : exn) : bool :=
  match e with KeyboardInterrupt => false | _ => true end.

Inductive result (A : Type) := Ok (a : A) | Raise (e : exn).
Arguments Ok {A} a.
Arguments Raise {A} e.

#[global] Instance result_eq_dec {A} `{EqDecision A} : EqDecision (result A).
Proof. solve_decision. Defined.

(** Handles of the driver: a client is known by its URI, a database and a
    collection by their names. *)
Record MongoClient := Client { client_uri : string }.
Record Database := Db { db_client : MongoClient; database_name : string }.
Record Collection := Coll { coll_db : Database; coll_name : string }.

#[global] Instance MongoClient_eq_dec : EqDecision MongoClient.
Proof. solve_decision. Defined.

#[global] Instance Database_eq_dec : EqDecision Database.
Proof. solve_decision. Defined.

#[global] Instance Collection_eq_dec : EqDecision Collection.
Proof. solve_decision. Defined.

(** What iterating [collection.find(query)] gives: documents one by one, until
    the cursor is exhausted or the driver raises [PyMongoError]. *)
Inductive cursor :=
  | Exhausted
  | CursorError
  | Yield (doc : document) (rest : cursor).

(** The documents a cursor yields before it ends. *)
Fixpoint yielded (c : cursor) : list document :=
  match c with
  | Yield doc rest => doc :: yielded rest
  | _ => []
  end.

(** The cursor ends with an exception. *)
Fixpoint cursor_fails (c : cursor) : bool :=
  match c with
  | Exhausted => false
  | CursorError => true
  | Yield _ rest => cursor_fails rest
  end.

(** The world the service runs in: the MongoDB server behind pymongo, the
    clock and the signals that can interrupt a sleep. Each operation takes the
    world before the call and gives the world after it. *)
Class World (W : Type) := {
  (** [MongoClient(uri)] *)
  new_client : string → W → result MongoClient * W;
  (** [client[name]] *)
  get_database : MongoClient → string → result Database;
  (** [client.admin.command('ping')] *)
  ping : MongoClient → W → result unit * W;
  (** [db[name]] *)
  get_collection : Database → string → result Collection;
  (** [collection.find(query)], read as the cursor's whole run *)
  find : Collection → query → W → cursor * W;
  (** [collection.update_one({'_id': id}, {'$set': fields})]: the result's
      [modified_count] *)
  update_one : Collection → value → document → W → result Z * W;
  (** [datetime.utcnow()] *)
  utcnow : W → Z * W;
  (** [time.sleep(seconds)] *)
  sleep : Z → W → result unit * W;
  (** [client.close()] *)
  close : MongoClient → W → W
}.

(** ** Records of the log and calls on the world *)

(** The two collections the service processes. *)
Inductive target := Groundtruth | UserClothes.

#[global] Instance target_eq_dec : EqDecision target.
Proof. solve_decision. Defined.

(** The records the service logs at level INFO and above (the [debug] calls
    are below the configured level). The text of a caught exception is not
    kept. *)
Inductive message :=
  | MConnected (uri : string)
  | MDatabase (name : string)
  | MOldUrl (url : string)
  | MNewUrl (url : string)
  | MConnectFailed
  | MUpdatedDocument (k : target) (doc_id : value)
  | MUpdatedCount (k : target) (n : Z)
  | MProcessingError (k : target)
  | MCheckComplete (gt uc : Z)
  | MRule
  | MStatsHeader
  | MStatsGroundtruth (n : Z)
  | MStatsUserClothes (n : Z)
  | MStatsErrors (n : Z)
  | MStatsLastCheck (t : option Z)
  | MStarting
  | MExiting
  | MPollingInterval (n : Z)
  | MRunning
  | MCycleError
  | MShuttingDown
  | MConnectionClosed.

Inductive level := INFO | ERROR.

#[global] Instance message_eq_dec : EqDecision message.
Proof. solve_decision. Defined.

#[global] Instance level_eq_dec : EqDecision level.
Proof. solve_decision. Defined.

(** What the service does to the world, in order: a record handed to the
    logger, or a call, with the answer when the call can raise. *)
Inductive event :=
  | EvLog (lvl : level) (m : message)
  | EvNewClient (uri : string) (answer : result MongoClient)
  | EvPing (answer : result unit)
  | EvFind (collection : string) (q : query)
  | EvCursorError (collection : string)
  | EvUpdateOne (collection : string) (doc_id : value) (fields : document)
                (answer : result Z)
  | EvSleep (seconds : Z) (answer : result unit)
  | EvClose.

#[global] Instance event_eq_dec : EqDecision event.
Proof. solve_decision. Defined.

(** ** The service object *)

Record stats_t := Stats {
  groundtruth_updated : Z;
  user_clothes_updated : Z;
  errors : Z;
  last_check : option Z
}.

#[global] Instance stats_eq_dec : EqDecision stats_t.
Proof. solve_decision. Defined.

Record URLMigrationService := Service {
  mongo_uri : string;
  db_name : string;
  old_url : string;
  new_url : string;
  poll_interval : Z;
  groundtruth_collection : string;
  user_clothes_collection : string;
  client : option MongoClient;
  db : option Database;
  stats : stats_t
}.

(** [__init__] with no environment variable set. *)
Definition init : URLMigrationService :=
  {| mongo_uri := "mongodb://localhost:27017/";
     db_name := "wearapp";
     old_url := "http://155.248.254.206:9000";
     new_url := "https://images.nomo.software";
     poll_interval := 1;
     groundtruth_collection := "imageUrl";
     user_clothes_collection := "userUploadedClothes";
     client := None;
     db := None;
     stats := Stats 0 0 0 None |}.

Definition set_client (c : MongoClient) (s : URLMigrationService) :=
  Service (mongo_uri s) (db_name s) (old_url s) (new_url s) (poll_interval s)
    (groundtruth_collection s) (user_clothes_collection s) (Some c) (db s) (stats s).

Definition set_db (d : Database) (s : URLMigrationService) :=
  Service (mongo_uri s) (db_name s) (old_url s) (new_url s) (poll_interval s)
    (groundtruth_collection s) (user_clothes_collection s) (client s) (Some d) (stats s).

Definition set_stats (st : stats_t) (s : URLMigrationService) :=
  Service (mongo_uri s) (db_name s) (old_url s) (new_url s) (poll_interval s)
    (groundtruth_collection s) (user_clothes_collection s) (client s) (db s) st.

Definition add_groundtruth_updated (n : Z) (st : stats_t) :=
  Stats (groundtruth_updated st + n) (user_clothes_updated st) (errors st) (last_check st).

Definition add_user_clothes_updated (n : Z) (st : stats_t) :=
  Stats (groundtruth_updated st) (user_clothes_updated st + n) (errors st) (last_check st).

Definition add_error (st : stats_t) :=
  Stats (groundtruth_updated st) (user_clothes_updated st) (errors st + 1) (last_check st).

Definition set_last_check (t : Z) (st : stats_t) :=
  Stats (groundtruth_updated st) (user_clothes_updated st) (errors st) (Some t).

(** ** The methods, in a monad of state, exceptions and emitted events *)

Section Methods.

Context {W : Type} `{World W}.

(** The service object and the world around it. *)
Definition state : Type := URLMigrationService * W.

(** A computation gives a result or raises, leaves a state either way
    (assignments made before a [raise] stay), and emits events. *)
Definition M (A : Type) : Type := state → result A * state * list event.

Definition ret {A} (a : A) : M A := fun st => (Ok a, st, []).

Definition raise {A} (e : exn) : M A := fun st => (Raise e, st, []).

Definition bind {A B} (m : M A) (k : A → M B) : M B :=
  fun st =>
    match m st with
    | (Ok a, st', out) =>
        let '(r, st'', out') := k a st' in (r, st'', out ++ out')
    | (Raise e, st', out) => (Raise e, st', out)
    end.

(** Runs [m] and hands its outcome over as a value. *)
Definition attempt {A} (m : M A) : M (result A) :=
  fun st => let '(r, st', out) := m st in (Ok r, st', out).

Definition emit (e : event) : M unit := fun st => (Ok tt, st, [e]).

Definition get_self : M URLMigrationService := fun st => (Ok (fst st), st, []).

Definition modify_self (f : URLMigrationService → URLMigrationService) : M unit :=
  fun st => (Ok tt, (f (fst st), snd st), []).

Definition modify_stats (f : stats_t → stats_t) : M unit :=
  modify_self (fun s => set_stats (f (stats s)) s).

Definition lift_result {A} (r : result A) : M A := fun st => (r, st, []).

(** A call on the world that may raise; the event keeps the answer. *)
Definition call {A} (e : result A → event) (op : W → result A * W) : M A :=
  fun st => let '(r, w) := op (snd st) in (r, (fst st, w), [e r]).

(** A call on the world that cannot raise. *)
Definition ask {A} (out : list event) (op : W → A * W) : M A :=
  fun st => let '(a, w) := op (snd st) in (Ok a, (fst st, w), out).

Definition log (lvl : level) (m : message) : M unit := emit (EvLog lvl m).

End Methods.

Notation "x <- m ;; k" := (bind m (fun x => k))
  (at level 100, m at next level, right associativity).
Notation "m ;; k" := (bind m (fun _ => k))
  (at level 100, right associativity).

(** [try: m except <classes of handler>: ...]: [handler e] is [None] when no
    [except] clause names the class of [e]. *)
Definition try_except {W A} (m : M (W := W) A) (handler : exn → option (M A)) : M A :=
  r <- attempt m ;;
  match r with
  | Ok a => ret a
  | Raise e =>
      match handler e with
      | Some h => h
      | None => raise e
      end
  end.

(** [d[key]] *)
Definition getitem {W} (d : document) (key : string) : M (W := W) value :=
  match d !! key with
  | Some v => ret v
  | None => raise KeyError
  end.

Definition url_fields (k : target) : list string :=
  match k with
  | Groundtruth => ["minioUrl"; "s3Url"; "minioUrlOracle"; "minioUrlThinker"]
  | UserClothes => ["imageUrl"; "segmentedImageUrl"]
  end.

Definition collection_of (k : target) (s : URLMigrationService) : string :=
  match k with
  | Groundtruth => groundtruth_collection s
  | UserClothes => user_clothes_collection s
  end.

(** [process_user_clothes_collection] adds [updatedAt] to what it writes,
    [process_groundtruth_collection] does not. *)
Definition adds_updatedAt (k : target) : bool :=
  match k with Groundtruth => false | UserClothes => true end.

Definition add_updated (k : target) (n : Z) : stats_t → stats_t :=
  match k with
  | Groundtruth => add_groundtruth_updated n
  | UserClothes => add_user_clothes_updated n
  end.

Section Service.

Context {W : Type} `{World W}.

Definition connect_db : M (W := W) bool :=
  try_except
    (s <- get_self ;;
     c <- call (EvNewClient (mongo_uri s)) (new_client (mongo_uri s)) ;;
     modify_self (set_client c) ;;
     d <- lift_result (get_database c (db_name s)) ;;
     modify_self (set_db d) ;;
     call EvPing (ping c) ;;
     log INFO (MConnected (mongo_uri s)) ;;
     log INFO (MDatabase (db_name s)) ;;
     log INFO (MOldUrl (old_url s)) ;;
     log INFO (MNewUrl (new_url s)) ;;
     ret true)
    (fun e =>
       match e with
       | PyMongoError => Some (log ERROR MConnectFailed ;; ret false)
       | _ => None
       end).

(** What is written back for a rewritten document: the document without
    its [_id], and for the user clothes with [updatedAt] set. *)
Definition update_fields (k : target) (modified_doc : document) : M (W := W) document :=
  let modified_doc := delete "_id" modified_doc in
  if adds_updatedAt k then
    now <- ask [] utcnow ;;
    ret (<["updatedAt" := VDate now]> modified_doc)
  else ret modified_doc.

(** The [for doc in documents] loop of a [process_*_collection] method,
    with its local [updated_count]. *)
Fixpoint process_documents (k : target) (collection : Collection)
    (documents : cursor) (updated_count : Z) : M (W := W) Z :=
  match documents with
  | Exhausted => ret updated_count
  | CursorError => emit (EvCursorError (coll_name collection)) ;; raise PyMongoError
  | Yield doc rest =>
      doc_id <- getitem doc "_id" ;;
      s <- get_self ;;
      let '(modified_doc, was_modified) :=
        replace_url_in_dict (old_url s) (new_url s) doc (url_fields k) in
      if was_modified then
        fields <- update_fields k modified_doc ;;
        modified_count <-
          call (EvUpdateOne (coll_name collection) doc_id fields)
               (update_one collection doc_id fields) ;;
        if (0 <? modified_count)%Z then
          log INFO (MUpdatedDocument k doc_id) ;;
          process_documents k collection rest (updated_count + 1)
        else process_documents k collection rest updated_count
      else process_documents k collection rest updated_count
  end.

(** The [try] block of a [process_*_collection] method. *)
Definition process_body (k : target) : M (W := W) Z :=
  s <- get_self ;;
  d <- match db s with Some d => ret d | None => raise TypeError end ;;
  collection <- lift_result (get_collection d (collection_of k s)) ;;
  let query := candidate_query (old_url s) (url_fields k) in
  documents <- ask [EvFind (coll_name collection) query] (find collection query) ;;
  updated_count <- process_documents k collection documents 0 ;;
  (if (0 <? updated_count)%Z then
     modify_stats (add_updated k updated_count) ;;
     log INFO (MUpdatedCount k updated_count)
   else ret tt) ;;
  ret updated_count.

(** The two methods have the same text up to the collection, the field
    list, the counter, the words of the log records and the [updatedAt]
    assignment; [k] selects them. *)
Definition process_collection (k : target) : M (W := W) Z :=
  try_except (process_body k)
    (fun e =>
       match e with
       | PyMongoError =>
           Some (log ERROR (MProcessingError k) ;;
                 modify_stats add_error ;;
                 ret 0)
       | _ => None
       end).

Definition process_groundtruth_collection : M (W := W) Z :=
  process_collection Groundtruth.

Definition process_user_clothes_collection : M (W := W) Z :=
  process_collection UserClothes.

Definition run_check : M (W := W) unit :=
  groundtruth_count <- process_groundtruth_collection ;;
  user_clothes_count <- process_user_clothes_collection ;;
  now <- ask [] utcnow ;;
  modify_stats (set_last_check now) ;;
  if ((0 <? groundtruth_count)%Z || (0 <? user_clothes_count)%Z)%bool then
    log INFO (MCheckComplete groundtruth_count user_clothes_count)
  else ret tt.

Definition print_stats : M (W := W) unit :=
  s <- get_self ;;
  log INFO MRule ;;
  log INFO MStatsHeader ;;
  log INFO (MStatsGroundtruth (groundtruth_updated (stats s))) ;;
  log INFO (MStatsUserClothes (user_clothes_updated (stats s))) ;;
  log INFO (MStatsErrors (errors (stats s))) ;;
  log INFO (MStatsLastCheck (last_check (stats s))) ;;
  log INFO MRule.

Definition do_sleep : M (W := W) unit :=
  s <- get_self ;;
  call (EvSleep (poll_interval s)) (sleep (poll_interval s)).

(** How far [run] got when the fuel of the model ended. *)
Inductive progress := Returned | StillPolling.

#[global] Instance progress_eq_dec : EqDecision progress.
Proof. solve_decision. Defined.

(** The [while True] loop: it is only left by an exception. [fuel] bounds
    the number of turns the model follows. *)
Fixpoint poll (fuel : nat) : M (W := W) progress :=
  match fuel with
  | O => ret StillPolling
  | S fuel' =>
      r <- attempt (run_check ;; do_sleep) ;;
      match r with
      | Ok _ => poll fuel'
      | Raise e =>
          if is_Exception e then
            log ERROR MCycleError ;;
            modify_stats add_error ;;
            do_sleep ;;
            poll fuel'
          else raise e
      end
  end.

(** The [finally] clause of [run]. *)
Definition run_finally : M (W := W) unit :=
  s <- get_self ;;
  match client s with
  | Some c =>
      ask [EvClose] (fun w => (tt, close c w)) ;;
      log INFO MConnectionClosed
  | None => ret tt
  end.

Definition run (fuel : nat) : M (W := W) progress :=
  log INFO MStarting ;;
  connected <- connect_db ;;
  if negb connected then
    log ERROR MExiting ;;
    ret Returned
  else
    s <- get_self ;;
    log INFO (MPollingInterval (poll_interval s)) ;;
    log INFO MRunning ;;
    r <- attempt
           (try_except (poll fuel)
              (fun e =>
                 match e with
                 | KeyboardInterrupt =>
                     Some (log INFO MShuttingDown ;; print_stats ;; ret Returned)
                 | _ => None
                 end)) ;;
    match r with
    | Ok StillPolling => ret StillPolling
    | Ok Returned => run_finally ;; ret Returned
    | Raise e => run_finally ;; raise e
    end.

(** [main]: a fresh service object, run. *)
Definition main (fuel : nat) (w : W) := run fuel (init, w).

End Service.

(** ** The effect of [$set] on a stored document *)

(** [{'$set': fields}] applied to a stored document: every field of [fields]
    takes its new value, the other fields stay (field names are taken as
    they are: no name is read as a dotted path). *)
Definition apply_set (fields stored : document) : document := fields ∪ stored.

(** The [update_one] calls among emitted events. *)
Definition update_calls (out : list event) : list (string * value * document) :=
  omap (fun e =>
          match e with
          | EvUpdateOne c i f _ => Some (c, i, f)
          | _ => None
          end) out.

(** The records that [print_stats] logs. *)
Definition is_stats_record (e : event) : bool :=
  match e with
  | EvLog _ (MRule | MStatsHeader | MStatsGroundtruth _ | MStatsUserClothes _
            | MStatsErrors _ | MStatsLastCheck _) => true
  | _ => false
  end.

(** The calls that reach the store once the polling loop runs. *)
Definition is_cycle_event (e : event) : bool :=
  match e with
  | EvFind _ _ | EvCursorError _ | EvUpdateOne _ _ _ _ | EvSleep _ _ => true
  | _ => false
  end.

(** ** A store in memory

    A world to run the methods in: collections are lists of documents,
    [find] answers with the documents the query selects, [update_one]
    applies [$set] to the first document with the given [_id]. Two scripts
    decide what else happens: [mem_faults] has one entry per call on the
    store ([ping], [find], [update_one]), [mem_signals] one entry per sleep
    ([true]: the sleep is interrupted). A script that ran out means that
    nothing happens. *)
Module Mem.

Inductive fault :=
  | NoFault
  (** the call raises [PyMongoError]; a [find] does so after its cursor
      has yielded [after] documents *)
  | Fails (after : nat)
  (** another writer has just stored the same content: [update_one]
      reports that it modified nothing *)
  | Unmodified.

Record mem := Mk {
  mem_docs : list (string * document);
  mem_clock : Z;
  mem_faults : list fault;
  mem_signals : list bool
}.

Definition next_fault (w : mem) : fault * mem :=
  match mem_faults w with
  | [] => (NoFault, w)
  | f :: fs => (f, Mk (mem_docs w) (mem_clock w) fs (mem_signals w))
  end.

Fixpoint to_cursor (fail_after : option nat) (docs : list document) : cursor :=
  match fail_after, docs with
  | Some O, _ => CursorError
  | Some (S _), [] => CursorError
  | None, [] => Exhausted
  | Some (S n), d :: ds => Yield d (to_cursor (Some n) ds)
  | None, d :: ds => Yield d (to_cursor None ds)
  end.

(** The documents of a collection the query selects; [None] when a
    pattern is outside the modelled dialect. *)
Fixpoint select (c : string) (q : query) (docs : list (string * document))
  : option (list document) :=
  match docs with
  | [] => Some []
  | (c', d) :: rest =>
      if String.eqb c c' then
        b ← query_matches q d;
        ds ← select c q rest;
        Some (if b : bool then d :: ds else ds)
      else select c q rest
  end.

Definition mem_find (c : Collection) (q : query) (w : mem) : cursor * mem :=
  let '(f, w') := next_fault w in
  match select (coll_name c) q (mem_docs w') with
  | Some ds =>
      (to_cursor (match f with Fails n => Some n | _ => None end) ds, w')
  | None => (CursorError, w')
  end.

(** [$set] on the first document of collection [c] whose [_id] is [i]:
    the documents after the update and [modified_count]. *)
Fixpoint set_first (c : string) (i : value) (fields : document)
    (docs : list (string * document)) : list (string * document) * Z :=
  match docs with
  | [] => ([], 0)
  | (c', d) :: rest =>
      if (String.eqb c c' && bool_decide (d !! "_id" = Some i))%bool then
        let d' := apply_set fields d in
        ((c', d') :: rest, if bool_decide (d' = d) then 0 else 1)
      else
        let '(rest', n) := set_first c i fields rest in ((c', d) :: rest', n)
  end.

Definition mem_update_one (c : Collection) (i : value) (fields : document)
    (w : mem) : result Z * mem :=
  let '(f, w') := next_fault w in
  let '(docs, n) := set_first (coll_name c) i fields (mem_docs w') in
  let w'' := Mk docs (mem_clock w') (mem_faults w') (mem_signals w') in
  match f with
  | Fails _ => (Raise PyMongoError, w')
  | Unmodified => (Ok 0, w'')
  | NoFault => (Ok n, w'')
  end.

Definition mem_ping (c : MongoClient) (w : mem) : result unit * mem :=
  let '(f, w') := next_fault w in
  match f with
  | Fails _ => (Raise PyMongoError, w')
  | _ => (Ok tt, w')
  end.

Definition mem_utcnow (w : mem) : Z * mem :=
  (mem_clock w, Mk (mem_docs w) (mem_clock w + 1) (mem_faults w) (mem_signals w)).

Definition mem_sleep (seconds : Z) (w : mem) : result unit * mem :=
  match mem_signals w with
  | true :: sigs =>
      (Raise KeyboardInterrupt, Mk (mem_docs w) (mem_clock w) (mem_faults w) sigs)
  | false :: sigs =>
      (Ok tt, Mk (mem_docs w) (mem_clock w + seconds) (mem_faults w) sigs)
  | [] => (Ok tt, Mk (mem_docs w) (mem_clock w + seconds) (mem_faults w) [])
  end.

#[global] Instance mem_world : World mem := {|
  new_client uri w := (Ok (Client uri), w);
  get_database c name := Ok (Db c name);
  ping := mem_ping;
  get_collection d name := Ok (Coll d name);
  find := mem_find;
  update_one := mem_update_one;
  utcnow := mem_utcnow;
  sleep := mem_sleep;
  close c w := w
|}.

(** A service whose [connect_db] has succeeded, with given URLs. *)
Definition connected (old new : string) : URLMigrationService :=
  let c := Client (mongo_uri init) in
  Service (mongo_uri init) (db_name init) old new 1
    (groundtruth_collection init) (user_clothes_collection init)
    (Some c) (Some (Db c (db_name init))) (Stats 0 0 0 None).

End Mem.

(** ** Reading emitted events *)

(** What a [process_*_collection] method passes to [$set] for a rewritten
    document, when the clock reads [now]. *)
Definition written_fields (k : target) (now : Z) (modified_doc : document) : document :=
  let fields := delete "_id" modified_doc in
  if adds_updatedAt k then <["updatedAt" := VDate now]> fields else fields.

(** A call that raised. *)
Definition is_failure (e : event) : bool :=
  match e with
  | EvNewClient _ (Raise _) | EvPing (Raise _) | EvCursorError _
  | EvUpdateOne _ _ _ (Raise _) | EvSleep _ (Raise _) => true
  | _ => false
  end.

(** An [update_one] whose answer has [modified_count > 0]. *)
Definition reports_modified (e : event) : bool :=
  match e with
  | EvUpdateOne _ _ _ (Ok n) => (0 <? n)%Z
  | _ => false
  end.

(** How many [update_one] calls reported a modified document. *)
Definition count_modified (out : list event) : Z :=
  Z.of_nat (List.length (filter (fun e => reports_modified e = true) out)).

(** The collection of a target: [self.db[name]], when there is a database
    and the driver accepts the name. *)
Definition target_collection {W} `{World W} (k : target) (s : URLMigrationService)
    : option Collection :=
  match db s with
  | Some d =>
      match get_collection d (collection_of k s) with
      | Ok collection => Some collection
      | Raise _ => None
      end
  | None => None
  end.

(** The cursor over the candidates of a target: what [collection.find(query)]
    gives in a [process_*_collection] method. *)
Definition find_candidates {W} `{World W} (k : target) (s : URLMigrationService)
    (w : W) : cursor :=
  match target_collection k s with
  | Some collection =>
      (find collection (candidate_query (old_url s) (url_fields k)) w).1
  | None => Exhausted
  end.

(** An [update_one] event writes back a rewritten candidate: it names the
    collection [c] and the [_id] of one of [docs] that
    [replace_url_in_dict] has modified, and sets what the method makes of
    the modified document. Other events are not constrained. *)
Definition update_of_candidate (k : target) (c : string) (s : URLMigrationService)
    (docs : list document) (e : event) : Prop :=
  match e with
  | EvUpdateOne c' doc_id fields _ =>
      c' = c ∧
      ∃ doc now,
        doc ∈ docs ∧ doc !! "_id" = Some doc_id
        ∧ (replace_url_in_dict (old_url s) (new_url s) doc (url_fields k)).2 = true
        ∧ fields = written_fields k now
                     (replace_url_in_dict (old_url s) (new_url s) doc (url_fields k)).1
  | _ => True
  end.

(** [replace_url_in_dict] reports the document as modified. *)
Definition changed (k : target) (s : URLMigrationService) (doc : document) : bool :=
  (replace_url_in_dict (old_url s) (new_url s) doc (url_fields k)).2.

(** The call [(collection, _id, fields)] writes the document [doc] back:
    on collection [c], under the [_id] of [doc], with the fields that the
    method makes of the rewritten [doc]. *)
Definition writes_back (k : target) (c : string) (s : URLMigrationService)
    (doc : document) (call : string * value * document) : Prop :=
  call.1.1 = c
  ∧ doc !! "_id" = Some call.1.2
  ∧ ∃ now, call.2 = written_fields k now
                      (replace_url_in_dict (old_url s) (new_url s) doc (url_fields k)).1.

(** ** The rewrite of one value, in words

    What [replace_url_in_dict] is to do with the value of a listed field: a
    non-empty string that contains the old URL has every occurrence
    replaced, any other value is left as it is. *)
Definition eligible (old : string) (v : value) : bool :=
  match v with
  | VStr s => negb (String.eqb s "") && PyStr.str_in old s
  | _ => false
  end.

Definition rewritten (old new : string) (v : value) : value :=
  match v with
  | VStr s => if eligible old v then VStr (PyStr.replace s old new) else v
  | _ => v
  end.

(** How [connect_db] ends when a call of its [try] block raises [e], in
    state [st] and after the events [out]: the [except PyMongoError] clause
    logs and returns [False], other exceptions go through. *)
Definition connect_failed {W} (e : exn) (st : state (W := W)) (out : list event)
    : result bool * state (W := W) * list event :=
  match e with
  | PyMongoError => (Ok false, st, out ++ [EvLog ERROR MConnectFailed])
  | _ => (Raise e, st, out)
  end.

(** An event that [run] may emit without having entered its loop and
    without closing the client or printing the statistics. *)
Definition before_loop (e : event) : Prop :=
  is_cycle_event e = false ∧ is_stats_record e = false ∧ e ≠ EvClose.

(** ** Reading the events of a pass, of a cycle and of the loop *)

(** An event of the [for doc in documents] loop of the pass over target
    [k] on [collection]: a call on that collection, or the record of an
    updated document of that target. *)
Definition is_document_event (k : target) (collection : string) (e : event) : bool :=
  match e with
  | EvCursorError c | EvUpdateOne c _ _ _ => bool_decide (c = collection)
  | EvLog INFO (MUpdatedDocument k' _) => bool_decide (k' = k)
  | _ => false
  end.

(** An event of that pass after its [find]: one of the loop, the record of
    the count, or the record of the failure. *)
Definition is_pass_event (k : target) (collection : string) (e : event) : bool :=
  is_document_event k collection e
  || match e with
     | EvLog INFO (MUpdatedCount k' _) | EvLog ERROR (MProcessingError k') =>
         bool_decide (k' = k)
     | _ => false
     end.

(** An event of either pass, whatever the collection: a query, a call of
    the loop over the documents, a record of the pass. *)
Definition is_target_event (e : event) : bool :=
  match e with
  | EvFind _ _ | EvCursorError _ | EvUpdateOne _ _ _ _ => true
  | EvLog INFO (MUpdatedDocument _ _ | MUpdatedCount _ _) => true
  | EvLog ERROR (MProcessingError _) => true
  | _ => false
  end.

(** An event of [run_check]: one of a pass, or the record of the completed
    check. *)
Definition is_check_event (e : event) : bool :=
  is_target_event e
  || match e with
     | EvLog INFO (MCheckComplete _ _) => true
     | _ => false
     end.

Definition is_sleep (e : event) : bool :=
  match e with EvSleep _ _ => true | _ => false end.

(** An event of the [while True] loop of a service that sleeps [interval]
    seconds: one of a check, a sleep of that length, or the record of a
    failed cycle. *)
Definition is_loop_event (interval : Z) (e : event) : bool :=
  is_check_event e
  || match e with
     | EvSleep seconds _ => bool_decide (seconds = interval)
     | EvLog ERROR MCycleError => true
     | _ => false
     end.

(** The records that go with [self.stats['errors'] += 1]. *)
Definition counts_error (e : event) : bool :=
  match e with
  | EvLog ERROR (MProcessingError _ | MCycleError) => true
  | _ => false
  end.

Definition errors_logged (out : list event) : Z :=
  Z.of_nat (List.length (filter (fun e => counts_error e = true) out)).

Definition sleeps (out : list event) : list event :=
  filter (fun e => is_sleep e = true) out.

(** How far the two counters of the statistics have moved from [s] to
    [s']. *)
Definition counted (s s' : URLMigrationService) : Z :=
  (groundtruth_updated (stats s') - groundtruth_updated (stats s))
  + (user_clothes_updated (stats s') - user_clothes_updated (stats s)).

(** The records of [print_stats] for given statistics. *)
Definition summary (st : stats_t) : list event :=
  [EvLog INFO MRule; EvLog INFO MStatsHeader;
   EvLog INFO (MStatsGroundtruth (groundtruth_updated st));
   EvLog INFO (MStatsUserClothes (user_clothes_updated st));
   EvLog INFO (MStatsErrors (errors st));
   EvLog INFO (MStatsLastCheck (last_check st));
   EvLog INFO MRule].

(** What the [finally] clause of [run] emits when there is a client. *)
Definition closing : list event := [EvClose; EvLog INFO MConnectionClosed].

(** The [except Exception] clause of the loop of [run], for the exception
    [e] raised in state [st] after the events [out]; [rest] is the loop
    from the next turn on. [KeyboardInterrupt] is re-raised. *)
Definition cycle_failed {W} `{World W} (rest : M (W := W) progress) (e : exn)
    (st : state (W := W)) (out : list event)
    : result progress * state (W := W) * list event :=
  if is_Exception e then
    let s := set_stats (add_error (stats st.1)) st.1 in
    match sleep (poll_interval s) st.2 with
    | (Ok _, w) =>
        let '(r, st', out') := rest (s, w) in
        (r, st',
         out ++ EvLog ERROR MCycleError :: EvSleep (poll_interval s) (Ok tt) :: out')
    | (Raise e', w) =>
        (Raise e', (s, w),
         out ++ [EvLog ERROR MCycleError; EvSleep (poll_interval s) (Raise e')])
    end
  else (Raise e, st, out).

(** What a turn of the loop has done when it reaches state [s1] from [s]
    with the events [out] emitted, [slept] of them sleeps: only the
    statistics of the service object moved, the counters went up by no more
    than the modifications reported, the error counter by the errors
    logged. *)
Definition turn_pre (s s1 : URLMigrationService) (out : list event) (slept : nat)
    : Prop :=
  s1 = set_stats (stats s1) s
  ∧ groundtruth_updated (stats s) ≤ groundtruth_updated (stats s1)
  ∧ user_clothes_updated (stats s) ≤ user_clothes_updated (stats s1)
  ∧ counted s s1 ≤ count_modified out
  ∧ errors (stats s1) = errors (stats s) + errors_logged out
  ∧ Forall (fun e => is_loop_event (poll_interval s) e = true) out
  ∧ List.length (sleeps out) = slept.

(** What holds when the loop, started in [s], has ended with [r] in state
    [s'] after at most [fuel] turns and the events [out]. *)
Definition poll_post (fuel : nat) (s : URLMigrationService) (r : result progress)
    (s' : URLMigrationService) (out : list event) : Prop :=
  (∃ slept, turn_pre s s' out slept ∧ (slept ≤ 2 * fuel)%nat
            ∧ (∀ p, r = Ok p → (fuel ≤ slept)%nat))
  ∧ match r with
    | Ok p => p = StillPolling
    | Raise e =>
        e = KeyboardInterrupt
        ∨ ∃ pre, out = pre ++ [EvLog ERROR MCycleError;
                               EvSleep (poll_interval s) (Raise e)]
    end.

(** An event of [connect_db]. *)
Definition is_connect_event (e : event) : bool :=
  match e with
  | EvNewClient _ _ | EvPing _ => true
  | EvLog INFO (MConnected _ | MDatabase _ | MOldUrl _ | MNewUrl _) => true
  | EvLog ERROR MConnectFailed => true
  | _ => false
  end.

(** The records [run] itself logs before its loop. *)
Definition is_start_record (e : event) : bool :=
  match e with
  | EvLog INFO (MStarting | MPollingInterval _ | MRunning) => true
  | EvLog ERROR MExiting => true
  | _ => false
  end.

(** What [run] emits until it leaves its loop. *)
Definition is_running_event (interval : Z) (e : event) : bool :=
  is_connect_event e || is_start_record e || is_loop_event interval e.

(** How [run] ends once its loop has ended with [r] in state [st], after
    the events [out]: the [except KeyboardInterrupt] clause, then the
    [finally] clause. Out of fuel, the model stops where it is. *)
Definition run_end {W} `{World W} (r : result progress) (st : state (W := W))
    (out : list event) : result progress * state (W := W) * list event :=
  let closed :=
    match client st.1 with
    | Some c => ((st.1, close c st.2), closing)
    | None => (st, [])
    end in
  match r with
  | Ok StillPolling => (Ok StillPolling, st, out)
  | Ok Returned => (Ok Returned, closed.1, out ++ closed.2)
  | Raise KeyboardInterrupt =>
      (Ok Returned, closed.1,
       out ++ EvLog INFO MShuttingDown :: summary (stats st.1) ++ closed.2)
  | Raise e => (Raise e, closed.1, out ++ closed.2)
  end.

(** ** URL pairs for which one rewrite is enough *)

(** Some non-empty end of [a] is a start of [b]: a copy of [b] can begin
    in [a] and run past its end. *)
Fixpoint overlaps (a b : string) : bool :=
  match a with
  | EmptyString => false
  | String _ a' => String.prefix a b || overlaps a' b
  end.

(** The two URLs keep apart: neither contains the other, and no end of one
    is a start of the other. *)
Definition separate (old new : string) : bool :=
  negb (PyStr.str_in old new) && negb (PyStr.str_in new old)
  && negb (overlaps new old) && negb (overlaps old new).

(** ** Concrete documents and worlds *)

Module Examples.

(** A ground-truth document with one stale URL and a field that is no
    URL. *)
Definition shirt : document :=
  {["_id" := VInt 1; "minioUrl" := VStr "http://OLD/x.png";
    "name" := VStr "shirt"]}.

Definition coat : document :=
  {["_id" := VInt 2; "s3Url" := VStr "http://OLD/y.png"]}.

(** A user's upload with a stale URL. *)
Definition upload : document :=
  {["_id" := VInt 7; "imageUrl" := VStr "http://OLD/u.png"]}.

(** A ground-truth document whose URL differs from the default old URL
    in one character, where the old URL has a dot. *)
Definition lookalike : document :=
  {["_id" := VInt 3; "minioUrl" := VStr "http://155x248.254.206:9000/a.png"]}.

(** The service once connected, with short URLs. *)
Definition service : URLMigrationService :=
  Mem.connected "http://OLD" "https://NEW".

Definition store (faults : list Mem.fault) : Mem.mem :=
  Mem.Mk [("imageUrl", shirt); ("imageUrl", coat);
          ("userUploadedClothes", upload)] 100 faults [].

End Examples.

(** * Properties *)

(** Closes a decidable goal on concrete data by evaluating its decision. *)
Ltac by_evaluation := intros; apply (bool_decide_unpack _); vm_compute; exact I.

(** ** Python strings *)

Module PyStrFacts.
Import PyStr.

Lemma app_cons c s t : String c s +:+ t = String c (s +:+ t).
Proof. reflexivity. Qed.

Lemma app_nil_l s : "" +:+ s = s.
Proof. reflexivity. Qed.

Lemma app_nil_r s : s +:+ "" = s.
Proof. induction s as [|c s IH]; [done|]. by rewrite app_cons, IH. Qed.

Lemma app_assoc s t u : (s +:+ t) +:+ u = s +:+ (t +:+ u).
Proof. induction s as [|c s IH]; [done|]. by rewrite !app_cons, IH. Qed.

Lemma length_app s t :
  String.length (s +:+ t) = (String.length s + String.length t)%nat.
Proof. induction s as [|c s IH]; [done|]. rewrite app_cons. simpl. by rewrite IH. Qed.

Lemma prefix_nil s : String.prefix "" s = true.
Proof. by destruct s. Qed.

Lemma prefix_cons a p c s :
  String.prefix (String a p) (String c s) = bool_decide (a = c) && String.prefix p s.
Proof. simpl. destruct (ascii_dec a c); by case_bool_decide. Qed.

(** A prefix test succeeds exactly on the strings that extend the prefix. *)
Lemma prefix_spec p s : String.prefix p s = true ↔ ∃ t, s = p +:+ t.
Proof.
  revert s. induction p as [|a p IH]; intros s.
  - rewrite prefix_nil. split; [by exists s|done].
  - destruct s as [|c s].
    + split; [done|]. by intros [t Ht].
    + rewrite prefix_cons, andb_true_iff, bool_decide_eq_true, IH. split.
      * intros [-> [t ->]]. by exists t.
      * intros [t Ht]. rewrite app_cons in Ht. injection Ht as -> ->. eauto.
Qed.

Lemma prefix_app_r p s t : String.prefix p s = true → String.prefix p (s +:+ t) = true.
Proof.
  rewrite !prefix_spec. intros [u ->]. exists (u +:+ t). by rewrite app_assoc.
Qed.

Lemma drop_0 s : drop 0 s = s.
Proof. by destruct s. Qed.

Lemma drop_app p t : drop (String.length p) (p +:+ t) = t.
Proof. induction p as [|a p IH]; [apply drop_0|]. by rewrite app_cons. Qed.

(** [sub in s] holds exactly when [s] splits around a copy of [sub]. *)
Lemma str_in_spec sub s : str_in sub s = true ↔ ∃ l r, s = l +:+ sub +:+ r.
Proof.
  induction s as [|c s IH]; cbn [str_in].
  - rewrite orb_false_r, prefix_spec. split.
    + intros [t ->]. by exists "", t.
    + intros [[|a l] [r Hs]]; [by exists r|done].
  - rewrite orb_true_iff, prefix_spec, IH. split.
    + intros [[t ->]|(l & r & ->)]; [by exists "", t|by exists (String c l), r].
    + intros [[|a l] [r Hs]]; [left; by exists r|].
      rewrite app_cons in Hs. injection Hs as -> ->. right. eauto.
Qed.

Lemma str_in_nil_l s : str_in "" s = true.
Proof. destruct s; cbn [str_in]; by rewrite prefix_nil. Qed.

Lemma str_in_nil_r sub : sub ≠ "" → str_in sub "" = false.
Proof. by destruct sub. Qed.

(** Passing over [k] characters is dropping them. *)
Lemma replace_from_skip old new k s :
  replace_from old new k s = replace_from old new 0 (drop k s).
Proof.
  revert k. induction s as [|c s IH]; intros [|k]; try done.
  simpl drop. by rewrite <- IH.
Qed.

(** At a match the scan emits [new] and goes on after the match. *)
Lemma replace_from_match old new s :
  old ≠ "" → String.prefix old s = true →
  replace_from old new 0 s
  = new +:+ replace_from old new 0 (drop (String.length old) s).
Proof.
  intros Hold Hp. destruct s as [|c s]; [by destruct old|].
  cbn [replace_from]. rewrite Hp, replace_from_skip. do 2 f_equal.
  destruct old as [|a old]; [done|]. simpl. by rewrite Nat.sub_0_r.
Qed.

Lemma replace_from_no_match old new c s :
  String.prefix old (String c s) = false →
  replace_from old new 0 (String c s) = String c (replace_from old new 0 s).
Proof. intros Hp. cbn [replace_from]. by rewrite Hp. Qed.

Lemma join_cons sep p q ps : join sep (p :: q :: ps) = p +:+ sep +:+ join sep (q :: ps).
Proof. reflexivity. Qed.

Lemma join_head_cons sep c p ps :
  join sep (String c p :: ps) = String c (join sep (p :: ps)).
Proof. destruct ps; [done|]. by rewrite !join_cons, app_cons. Qed.

Lemma join_head sep p ps : ∃ t, join sep (p :: ps) = p +:+ t.
Proof.
  destruct ps; [exists ""; by rewrite app_nil_r|]. rewrite join_cons. eauto.
Qed.

(** [s.replace(old, new)] cuts [s] at occurrences of [old] into pieces that
    hold no further occurrence, and joins the pieces with [new]: every
    occurrence is replaced, not only the first. *)
Lemma replace_from_pieces old new :
  old ≠ "" →
  ∀ n s, (String.length s ≤ n)%nat →
    ∃ pieces, pieces ≠ [] ∧ s = join old pieces
              ∧ replace_from old new 0 s = join new pieces
              ∧ Forall (fun p => str_in old p = false) pieces.
Proof.
  intros Hold. induction n as [|n IH]; intros s Hn.
  - destruct s; [|simpl in Hn; lia]. exists [""].
    repeat split; [done|]. constructor; [|done]. by apply str_in_nil_r.
  - destruct s as [|c s].
    { exists [""]. repeat split; [done|].
      constructor; [|done]. by apply str_in_nil_r. }
    destruct (String.prefix old (String c s)) eqn:Hp.
    + rewrite (replace_from_match _ _ _ Hold Hp).
      pose proof Hp as [t Ht]%prefix_spec. rewrite Ht, drop_app.
      destruct (IH t) as (ps & Hps & Hs & Hr & Hall).
      { assert (String.length (String c s) = String.length (old +:+ t)) as Hl
          by by rewrite Ht.
        rewrite length_app in Hl. destruct old; [done|]. simpl in *. lia. }
      destruct ps as [|p ps]; [done|]. exists ("" :: p :: ps).
      rewrite !join_cons, !app_nil_l, <- Hs, <- Hr. repeat split; [done|].
      constructor; [by apply str_in_nil_r|done].
    + rewrite (replace_from_no_match _ _ _ _ Hp).
      destruct (IH s) as (ps & Hps & Hs & Hr & Hall); [simpl in Hn; lia|].
      destruct ps as [|p ps]; [done|]. exists (String c p :: ps).
      rewrite !join_head_cons, <- Hs, <- Hr. repeat split; [done|].
      apply Forall_cons in Hall as [Hp0 Hall]. constructor; [|done].
      cbn [str_in]. rewrite Hp0, orb_false_r.
      destruct (String.prefix old (String c p)) eqn:Hp'; [|done].
      destruct (join_head old p ps) as [t Ht].
      rewrite Hs, Ht, <- app_cons in Hp.
      by rewrite (prefix_app_r _ _ t Hp') in Hp.
Qed.

Lemma replace_pieces s old new :
  old ≠ "" →
  ∃ pieces, s = join old pieces
            ∧ replace s old new = join new pieces
            ∧ Forall (fun p => str_in old p = false) pieces.
Proof.
  intros Hold.
  destruct (replace_from_pieces old new Hold (String.length s) s)
    as (ps & _ & Hs & Hr & Hall); [done|].
  exists ps. repeat split; [done| |done]. by destruct old.
Qed.

(** Without an occurrence of [old] nothing is replaced. *)
Lemma replace_from_absent old new s :
  str_in old s = false → replace_from old new 0 s = s.
Proof.
  induction s as [|c s IH]; [done|]. cbn [str_in].
  intros [Hp Hin]%orb_false_iff.
  rewrite (replace_from_no_match _ _ _ _ Hp). by rewrite IH.
Qed.

Lemma replace_absent s old new : str_in old s = false → replace s old new = s.
Proof.
  intros Hin. destruct old as [|a old]; [by rewrite str_in_nil_l in Hin|].
  by apply replace_from_absent.
Qed.

End PyStrFacts.

(** [str.replace] on the cases that tell implementations apart: several
    occurrences, overlapping candidates, an occurrence produced by the
    replacement, the empty pattern, and the escaping of the query. *)
Example replace_every_occurrence :
  PyStr.replace "http://OLD/a?u=http://OLD/b" "http://OLD" "https://NEW"
  = "https://NEW/a?u=https://NEW/b".
Proof. reflexivity. Qed.

Example replace_does_not_overlap : PyStr.replace "aaaaa" "aa" "b" = "bba".
Proof. reflexivity. Qed.

Example replace_does_not_rescan : PyStr.replace "aab" "ab" "b" = "ab".
Proof. reflexivity. Qed.

Example replace_empty_pattern : PyStr.replace "abc" "" "X" = "XaXbXcX".
Proof. reflexivity. Qed.

Example replace_escapes_slashes :
  PyStr.replace "http://h:9000" "/" "\/" = "http:\/\/h:9000".
Proof. reflexivity. Qed.

(** ** [replace_url_in_dict] *)

Section RewriteFacts.

Variables (old new : string).

Lemma eligible_spec v :
  eligible old v = true ↔ ∃ s, v = VStr s ∧ s ≠ "" ∧ PyStr.str_in old s = true.
Proof.
  destruct v as [| | |s| | |]; simpl;
    try (split; [done|by intros (? & ? & _)]).
  rewrite andb_true_iff, negb_true_iff, String.eqb_neq. split.
  - intros [? ?]. by exists s.
  - intros (? & [= <-] & ? & ?). done.
Qed.

(** One turn of the loop, read through [rewritten] and [eligible]. *)
Lemma replace_url_in_field_eq field data modified :
  replace_url_in_field old new field (data, modified)
  = match data !! field with
    | Some v =>
        if eligible old v
        then (<[field := rewritten old new v]> data, true)
        else (data, modified)
    | None => (data, modified)
    end.
Proof.
  unfold replace_url_in_field. destruct (data !! field) as [v|]; [|done].
  destruct v as [|b|n|s|t|o|tr r]; simpl; try by rewrite ?andb_false_r.
  rewrite andb_true_r. by destruct (String.eqb s ""), (PyStr.str_in old s).
Qed.

Lemma rewritten_not_eligible v : eligible old v = false → rewritten old new v = v.
Proof. destruct v; try done. unfold rewritten. by intros ->. Qed.

Lemma replace_url_in_field_lookup field data modified k :
  (replace_url_in_field old new field (data, modified)).1 !! k
  = if decide (field = k) then rewritten old new <$> data !! k else data !! k.
Proof.
  rewrite replace_url_in_field_eq. case_decide as Hk.
  - subst k. destruct (data !! field) as [v|] eqn:Hv; simpl; [|by rewrite Hv].
    destruct (eligible old v) eqn:He; simpl.
    + by rewrite lookup_insert_eq.
    + by rewrite Hv, rewritten_not_eligible.
  - destruct (data !! field) as [v|]; [|done].
    destruct (eligible old v); [|done]. simpl. by rewrite lookup_insert_ne.
Qed.

(** The loop from any intermediate state: every listing of a field applies
    [rewritten] once to its value. *)
Lemma rewrite_loop_lookup fields data modified k :
  (fold_left (fun st field => replace_url_in_field old new field st)
             fields (data, modified)).1 !! k
  = Nat.iter (count_occ string_dec fields k) (rewritten old new) <$> data !! k.
Proof.
  revert data modified. induction fields as [|f fields IH]; intros data modified.
  - simpl. by destruct (data !! k).
  - cbn [fold_left count_occ].
    destruct (replace_url_in_field old new f (data, modified)) as [data' m'] eqn:Hstep.
    rewrite IH.
    pose proof (replace_url_in_field_lookup f data modified k) as Hk.
    rewrite Hstep in Hk. simpl in Hk. rewrite Hk.
    destruct (string_dec f k) as [->|Hne].
    + rewrite decide_True by done. destruct (data !! k) as [v|]; [|done].
      simpl. f_equal.
      exact (eq_sym (Nat.iter_succ_r (count_occ string_dec fields k) _ (rewritten old new) v)).
    + by rewrite decide_False.
Qed.

(** The flag is raised exactly by a listed field that is eligible in the
    document the loop started from. *)
Lemma rewrite_loop_flag fields data modified :
  (fold_left (fun st field => replace_url_in_field old new field st)
             fields (data, modified)).2
  = modified || existsb (fun f => from_option (eligible old) false (data !! f)) fields.
Proof.
  revert data modified. induction fields as [|f fields IH]; intros data modified.
  - simpl. by rewrite orb_false_r.
  - cbn [fold_left existsb]. rewrite replace_url_in_field_eq.
    destruct (data !! f) as [v|]; simpl.
    + destruct (eligible old v); simpl.
      * rewrite IH. simpl. by rewrite orb_true_r.
      * by rewrite IH.
    + by rewrite IH.
Qed.

(** With no eligible listed field the loop changes nothing. *)
Lemma rewrite_loop_id fields data modified :
  existsb (fun f => from_option (eligible old) false (data !! f)) fields = false →
  fold_left (fun st field => replace_url_in_field old new field st)
            fields (data, modified) = (data, modified).
Proof.
  induction fields as [|f fields IH]; [done|].
  cbn [fold_left existsb]. intros [Hf Hrest]%orb_false_iff.
  rewrite replace_url_in_field_eq.
  destruct (data !! f) as [v|]; simpl in *; [rewrite Hf|]; by apply IH.
Qed.

Lemma exists_eligible fields (data : document) :
  existsb (fun f => from_option (eligible old) false (data !! f)) fields = true
  ↔ ∃ f s, f ∈ fields ∧ data !! f = Some (VStr s) ∧ s ≠ ""
           ∧ PyStr.str_in old s = true.
Proof.
  rewrite existsb_exists. split.
  - intros (f & Hin%list_elem_of_In & He).
    destruct (data !! f) as [v|] eqn:Hv; [|done]. simpl in He.
    apply eligible_spec in He as (s & -> & ? & ?). by exists f, s.
  - intros (f & s & Hin%list_elem_of_In & Hv & ? & ?). exists f. split; [done|].
    rewrite Hv. apply (proj2 (eligible_spec (VStr s))). by exists s.
Qed.

End RewriteFacts.

(** ** The monad *)

Section MonadFacts.

Context {W : Type} `{World W}.

Lemma bind_ret_l {A B} (a : A) (k : A → M (W := W) B) st :
  (x <- ret a ;; k x) st = k a st.
Proof. unfold bind, ret. by destruct (k a st) as [[r st'] out]. Qed.

Lemma bind_raise {A B} (e : exn) (k : A → M (W := W) B) st :
  (x <- raise e ;; k x) st = (Raise e, st, []).
Proof. done. Qed.

Lemma bind_get_self {B} (k : URLMigrationService → M (W := W) B) st :
  (x <- get_self ;; k x) st = k st.1 st.
Proof. unfold bind, get_self. by destruct (k st.1 st) as [[r st'] out]. Qed.

Lemma bind_emit {B} (e : event) (k : unit → M (W := W) B) st :
  (x <- emit e ;; k x) st
  = let '(r, st', out) := k tt st in (r, st', e :: out).
Proof. done. Qed.

Lemma bind_log {B} lvl m (k : unit → M (W := W) B) st :
  (x <- log lvl m ;; k x) st
  = let '(r, st', out) := k tt st in (r, st', EvLog lvl m :: out).
Proof. done. Qed.

Lemma bind_modify_self {B} f (k : unit → M (W := W) B) s w :
  (x <- modify_self f ;; k x) (s, w) = k tt (f s, w).
Proof. unfold bind, modify_self. simpl. by destruct (k tt (f s, w)) as [[r st'] out]. Qed.

Lemma bind_lift_result {A B} (r : result A) (k : A → M (W := W) B) st :
  (x <- lift_result r ;; k x) st
  = match r with
    | Ok a => k a st
    | Raise e => (Raise e, st, [])
    end.
Proof.
  unfold bind, lift_result. destruct r; [|done].
  by destruct (k a st) as [[r st'] out].
Qed.

Lemma bind_call {A B} (e : result A → event) op (k : A → M (W := W) B) s w :
  (x <- call e op ;; k x) (s, w)
  = match op w with
    | (Ok a, w') =>
        let '(r, st', out) := k a (s, w') in (r, st', e (Ok a) :: out)
    | (Raise x, w') => (Raise x, (s, w'), [e (Raise x)])
    end.
Proof. unfold bind, call. simpl. by destruct (op w) as [[a|x] w']. Qed.

Lemma bind_ask {A B} out0 (op : W → A * W) (k : A → M (W := W) B) s w :
  (x <- ask out0 op ;; k x) (s, w)
  = let '(a, w') := op w in
    let '(r, st', out) := k a (s, w') in (r, st', out0 ++ out).
Proof. unfold bind, ask. simpl. by destruct (op w) as [a w']. Qed.

Lemma bind_attempt {A B} (m : M (W := W) A) (k : result A → M (W := W) B) st :
  (x <- attempt m ;; k x) st
  = let '(r, st', out) := m st in
    let '(r', st'', out') := k r st' in (r', st'', out ++ out').
Proof. unfold bind, attempt. by destruct (m st) as [[r st'] out]. Qed.

Lemma bind_assoc {A B C} (m : M (W := W) A) (k : A → M B) (k' : B → M C) st :
  (y <- (x <- m ;; k x) ;; k' y) st = (x <- m ;; y <- k x ;; k' y) st.
Proof.
  unfold bind. destruct (m st) as [[[a|e] st1] out1]; [|done].
  destruct (k a st1) as [[[b|e] st2] out2]; [|done].
  destruct (k' b st2) as [[r st3] out3]. by rewrite app_assoc.
Qed.

Lemma try_except_eq {A} (m : M (W := W) A) handler st :
  try_except m handler st
  = match m st with
    | (Ok a, st', out) => (Ok a, st', out)
    | (Raise e, st', out) =>
        match handler e with
        | Some h => let '(r, st'', out') := h st' in (r, st'', out ++ out')
        | None => (Raise e, st', out)
        end
    end.
Proof.
  unfold try_except. rewrite bind_attempt.
  destruct (m st) as [[[a|e] st'] out].
  - unfold ret. by rewrite app_nil_r.
  - destruct (handler e) as [h|]; [done|]. unfold raise. by rewrite app_nil_r.
Qed.

End MonadFacts.

(** ** The methods of the service *)

Section ServiceFacts.
Context {W : Type} `{World W}.

Lemma update_fields_eq k modified_doc s (w : W) :
  update_fields k modified_doc (s, w)
  = (Ok (written_fields k (utcnow w).1 modified_doc),
     (s, if adds_updatedAt k then (utcnow w).2 else w), []).
Proof.
  unfold update_fields, written_fields. destruct (adds_updatedAt k); [|done].
  rewrite bind_ask. by destruct (utcnow w).
Qed.

(** One turn of the [for doc in documents] loop. *)
Lemma process_documents_yield k collection doc rest n s (w : W) :
  process_documents k collection (Yield doc rest) n (s, w)
  = match doc !! "_id" with
    | None => (Raise KeyError, (s, w), [])
    | Some doc_id =>
        let '(modified_doc, was_modified) :=
          replace_url_in_dict (old_url s) (new_url s) doc (url_fields k) in
        if was_modified then
          let fields := written_fields k (utcnow w).1 modified_doc in
          let w1 := if adds_updatedAt k then (utcnow w).2 else w in
          let call := EvUpdateOne (coll_name collection) doc_id fields in
          match update_one collection doc_id fields w1 with
          | (Ok c, w2) =>
              let '(r, st, out) :=
                process_documents k collection rest
                  (if 0 <? c then n + 1 else n) (s, w2) in
              (r, st,
               call (Ok c)
               :: (if 0 <? c then [EvLog INFO (MUpdatedDocument k doc_id)] else [])
               ++ out)
          | (Raise e, w2) => (Raise e, (s, w2), [call (Raise e)])
          end
        else process_documents k collection rest n (s, w)
    end.
Proof.
  cbn [process_documents]. unfold getitem.
  destruct (doc !! "_id") as [doc_id|]; [|done].
  rewrite bind_ret_l, bind_get_self. cbn [fst].
  destruct (replace_url_in_dict _ _ _ _) as [modified_doc [|]]; [|done].
  unfold bind at 1. rewrite update_fields_eq.
  rewrite bind_call.
  destruct (update_one _ _ _ _) as [[c|e] w2]; [|done].
  destruct (0 <? c).
  - rewrite bind_log. by destruct (process_documents _ _ _ _ _) as [[r st] out].
  - by destruct (process_documents _ _ _ _ _) as [[r st] out].
Qed.

(** The [try] block, once the database and the collection are at hand. *)
Lemma process_body_eq k s (w : W) :
  process_body k (s, w)
  = match db s with
    | None => (Raise TypeError, (s, w), [])
    | Some d =>
        match get_collection d (collection_of k s) with
        | Raise e => (Raise e, (s, w), [])
        | Ok collection =>
            let query := candidate_query (old_url s) (url_fields k) in
            let '(documents, w1) := find collection query w in
            let '(r, (s2, w2), out) :=
              process_documents k collection documents 0 (s, w1) in
            match r with
            | Ok n =>
                (Ok n,
                 (if 0 <? n then set_stats (add_updated k n (stats s2)) s2 else s2,
                  w2),
                 EvFind (coll_name collection) query
                 :: out ++ (if 0 <? n then [EvLog INFO (MUpdatedCount k n)] else []))
            | Raise e =>
                (Raise e, (s2, w2), EvFind (coll_name collection) query :: out)
            end
        end
    end.
Proof.
  unfold process_body. rewrite bind_get_self. cbn [fst].
  destruct (db s) as [d|]; [|done]. rewrite bind_ret_l, bind_lift_result.
  destruct (get_collection d _) as [collection|e]; [|done].
  rewrite bind_ask. destruct (find _ _ _) as [documents w1].
  unfold bind at 1.
  destruct (process_documents _ _ _ _ _) as [[[n|e] [s2 w2]] out]; [|done].
  destruct (0 <? n).
  - rewrite bind_assoc. unfold modify_stats.
    by rewrite bind_modify_self, bind_log.
  - rewrite bind_ret_l. unfold ret. by rewrite app_nil_r.
Qed.

(** The whole method: the [try] block and its [except PyMongoError]. *)
Lemma process_collection_eq k (st : state (W := W)) :
  process_collection k st
  = let '(r, (s1, w1), out) := process_body k st in
    match r with
    | Raise PyMongoError =>
        (Ok 0, (set_stats (add_error (stats s1)) s1, w1),
         out ++ [EvLog ERROR (MProcessingError k)])
    | _ => (r, (s1, w1), out)
    end.
Proof.
  unfold process_collection. rewrite try_except_eq.
  destruct (process_body k st) as [[[n|e] [s1 w1]] out]; [done|].
  destruct e; try done.
Qed.

Lemma count_modified_cons e out :
  count_modified (e :: out)
  = (if reports_modified e then 1 else 0) + count_modified out.
Proof.
  unfold count_modified. rewrite filter_cons.
  destruct (reports_modified e); [rewrite decide_True by done|rewrite decide_False by done];
    simpl; lia.
Qed.

Lemma count_modified_app out1 out2 :
  count_modified (out1 ++ out2) = count_modified out1 + count_modified out2.
Proof.
  induction out1 as [|e out1 IH]; [done|].
  rewrite <- app_comm_cons, !count_modified_cons, IH. lia.
Qed.

Lemma update_of_candidate_cons k c s doc docs e :
  update_of_candidate k c s docs e → update_of_candidate k c s (doc :: docs) e.
Proof.
  destruct e; try done. intros [-> (d & t & Hd & ?)].
  split; [done|]. exists d, t. split; [by right|done].
Qed.

(** The loop as a whole, from any count and any state: the service object
    is left alone; every [update_one] writes back a rewritten candidate;
    a normal end returns the count of the updates that reported a
    modification; an exception is either the answer of the last call, or
    the [KeyError] of a document with no [_id]. *)
Lemma process_documents_run k collection documents :
  ∀ n s (w : W),
    let '(r, (s', w'), out) := process_documents k collection documents n (s, w) in
    s' = s
    ∧ Forall (update_of_candidate k (coll_name collection) s (yielded documents)) out
    ∧ match r with
      | Ok m =>
          m = n + count_modified out
          ∧ Forall (fun e => is_failure e = false) out
          ∧ cursor_fails documents = false
      | Raise e =>
          (∃ out0 ev, out = out0 ++ [ev] ∧ is_failure ev = true
                      ∧ Forall (fun e => is_failure e = false) out0)
          ∨ (e = KeyError ∧ Forall (fun e => is_failure e = false) out
             ∧ ∃ doc, doc ∈ yielded documents ∧ doc !! "_id" = None)
      end.
Proof.
  induction documents as [| |doc rest IH]; intros n s w.
  - simpl. repeat split; try done. unfold count_modified. simpl. lia.
  - simpl. repeat split; [by repeat constructor|].
    left. exists [], (EvCursorError (coll_name collection)). by repeat split.
  - rewrite process_documents_yield.
    destruct (doc !! "_id") as [doc_id|] eqn:Hid.
    2:{ repeat split; [done|]. right. repeat split; [done|].
        exists doc. split; [apply list_elem_of_here|done]. }
    destruct (replace_url_in_dict _ _ _ _) as [modified_doc was_modified] eqn:Hrw.
    destruct was_modified.
    + cbv zeta.
      assert (∀ a, update_of_candidate k (coll_name collection) s
                     (yielded (Yield doc rest))
                     (EvUpdateOne (coll_name collection) doc_id
                        (written_fields k (utcnow w).1 modified_doc) a)) as Hcall.
      { intros a. split; [done|]. exists doc, (utcnow w).1. rewrite Hrw.
        repeat split; [apply list_elem_of_here|done]. }
      assert (∀ c : Z, Forall (fun e => is_failure e = false)
                (if 0 <? c then [EvLog INFO (MUpdatedDocument k doc_id)] else []))
        as Hlog by (intros c; destruct (0 <? c); by repeat constructor).
      destruct (update_one _ _ _ _) as [[c|e] w2].
      * specialize (IH (if 0 <? c then n + 1 else n) s w2).
        destruct (process_documents _ _ _ _ _) as [[r [s' w']] out].
        destruct IH as (Hs & Hout & Hr). split; [done|]. split.
        { constructor; [apply Hcall|]. apply Forall_app. split.
          - destruct (0 <? c); by repeat constructor.
          - eapply Forall_impl; [done|]. intros e. apply update_of_candidate_cons. }
        destruct r as [m|e].
        -- destruct Hr as (Hm & Hnf & Hcf).
           repeat split; [|by constructor; [|apply Forall_app]|done].
           rewrite count_modified_cons, count_modified_app, Hm. cbn [reports_modified].
           destruct (0 <? c); [rewrite count_modified_cons|];
             change (count_modified []) with 0; simpl; lia.
        -- destruct Hr as [(out0 & ev & -> & Hev & Hnf)|(-> & Hnf & d & Hd & Hnone)].
           ++ left. eexists (_ :: _ ++ out0), ev.
              split; [by rewrite app_comm_cons, app_assoc|].
              split; [done|]. constructor; [done|]. by apply Forall_app.
           ++ right. repeat split; [by constructor; [|apply Forall_app]|].
              exists d. split; [by apply list_elem_of_further|done].
      * split; [done|]. split; [constructor; [apply Hcall|constructor]|].
        left. by eexists [], _.
    + specialize (IH n s w).
      destruct (process_documents _ _ _ _ _) as [[r [s' w']] out].
      destruct IH as (Hs & Hout & Hr). repeat split; [done| |].
      * eapply Forall_impl; [done|]. intros e. apply update_of_candidate_cons.
      * destruct r as [m|e]; [done|].
        destruct Hr as [?|(-> & Hnf & d & Hd & Hnone)]; [by left|].
        right. repeat split; [done|].
        exists d. split; [by apply list_elem_of_further|done].
Qed.

Lemma update_calls_app out1 out2 :
  update_calls (out1 ++ out2) = update_calls out1 ++ update_calls out2.
Proof. apply omap_app. Qed.

(** The [update_one] calls of the loop are, in order, one per modified
    document, up to the document at which the loop was left. *)
Lemma process_documents_calls k collection documents :
  ∀ n s (w : W),
    let '(r, _, out) := process_documents k collection documents n (s, w) in
    ∃ docs,
      docs `prefix_of` filter (fun d => changed k s d = true) (yielded documents)
      ∧ Forall2 (writes_back k (coll_name collection) s) docs (update_calls out)
      ∧ (∀ m, r = Ok m →
              docs = filter (fun d => changed k s d = true) (yielded documents)).
Proof.
  induction documents as [| |doc rest IH]; intros n s w.
  - exists []. by repeat split.
  - exists []. by repeat split.
  - rewrite process_documents_yield. cbn [yielded].
    destruct (doc !! "_id") as [doc_id|] eqn:Hid.
    2:{ exists []. repeat split; [apply prefix_nil|done|done]. }
    pose proof (eq_refl : changed k s doc
                          = (replace_url_in_dict (old_url s) (new_url s) doc
                               (url_fields k)).2) as Hch.
    destruct (replace_url_in_dict _ _ _ _) as [modified_doc was_modified] eqn:Hrw.
    simpl in Hch. destruct was_modified.
    + rewrite filter_cons_True by done. cbv zeta.
      assert (writes_back k (coll_name collection) s doc
                (coll_name collection, doc_id,
                 written_fields k (utcnow w).1 modified_doc)) as Hcall.
      { repeat split; [done|]. exists (utcnow w).1. by rewrite Hrw. }
      destruct (update_one _ _ _ _) as [[c|e] w2].
      * specialize (IH (if 0 <? c then n + 1 else n) s w2).
        destruct (process_documents _ _ _ _ _) as [[r st] out].
        destruct IH as (docs & Hpre & Hcalls & Hok).
        exists (doc :: docs). split; [by apply prefix_cons|]. split.
        -- change (update_calls (?e :: ?l)) with (update_calls [e] ++ update_calls l).
           rewrite update_calls_app. cbn [update_calls omap app].
           assert (update_calls
                     (if 0 <? c then [EvLog INFO (MUpdatedDocument k doc_id)] else [])
                   = []) as -> by by destruct (0 <? c).
           by constructor.
        -- intros m Hm. by rewrite (Hok m Hm).
      * exists [doc]. split; [by apply prefix_cons, prefix_nil|].
        split; [constructor; [done|constructor]|done].
    + rewrite filter_cons_False by (by rewrite Hch). apply IH.
Qed.

Lemma process_collection_calls k s (w : W) :
  ∃ docs,
    docs `prefix_of` filter (fun d => changed k s d = true)
                            (yielded (find_candidates k s w))
    ∧ (∀ n, (process_body k (s, w)).1.1 = Ok n →
            docs = filter (fun d => changed k s d = true)
                          (yielded (find_candidates k s w)))
    ∧ Forall2 (fun doc call =>
                 ∃ collection, target_collection k s = Some collection
                               ∧ writes_back k (coll_name collection) s doc call)
              docs (update_calls (process_collection k (s, w)).2).
Proof.
  assert (update_calls (process_collection k (s, w)).2
          = update_calls (process_body k (s, w)).2) as ->.
  { rewrite process_collection_eq.
    destruct (process_body k (s, w)) as [[[n|e] [s1 w1]] out]; [done|].
    destruct e; try done. simpl. rewrite update_calls_app. simpl. apply app_nil_r. }
  rewrite process_body_eq. unfold find_candidates, target_collection.
  destruct (db s) as [d|]; [|exists []; by repeat split].
  destruct (get_collection d _) as [collection|e]; [|exists []; by repeat split].
  cbv zeta. destruct (find _ _ _) as [documents w1]. cbn [fst].
  pose proof (process_documents_calls k collection documents 0 s w1) as Hcalls.
  destruct (process_documents _ _ _ _ _) as [[r [s2 w2]] out].
  destruct Hcalls as (docs & Hpre & Hcalls & Hok).
  exists docs. split; [done|].
  assert (Forall2 (fun doc call =>
                     ∃ collection0, Some collection = Some collection0
                                    ∧ writes_back k (coll_name collection0) s doc call)
                  docs (update_calls out)) as Hcalls'.
  { eapply Forall2_impl; [done|]. intros doc call ?. by exists collection. }
  destruct r as [n|e]; simpl.
  - split; [intros ? _; by eapply Hok|].
    change (update_calls (?e :: ?l)) with (update_calls [e] ++ update_calls l).
    rewrite update_calls_app.
    assert (update_calls
              (if 0 <? n then [EvLog INFO (MUpdatedCount k n)] else []) = [])
      as -> by by destruct (0 <? n).
    by rewrite app_nil_r.
  - split; [done|]. done.
Qed.

(** When all calls but the last answered, nothing follows a failed call. *)
Lemma nothing_after_failure (out0 : list event) ev out1 e out2 :
  Forall (fun e => is_failure e = false) out0 →
  out0 ++ [ev] = out1 ++ e :: out2 → is_failure e = true → out2 = [].
Proof.
  revert out1. induction out0 as [|x out0 IH]; intros out1 Hnf Heq He.
  - destruct out1 as [|y out1]; simpl in Heq; [congruence|].
    injection Heq as _ Heq. by destruct out1.
  - apply Forall_cons in Hnf as [Hx Hnf]. destruct out1 as [|y out1]; simpl in Heq.
    + injection Heq as -> _. congruence.
    + injection Heq as _ Heq. by eapply IH.
Qed.

(** The [try] block as a whole. *)
Lemma process_body_run k s (w : W) :
  let '(r, (s', w'), out) := process_body k (s, w) in
  match target_collection k s with
  | None => out = [] ∧ s' = s ∧ ∃ e, r = Raise e
  | Some collection =>
      Forall (update_of_candidate k (coll_name collection) s
                (yielded (find_candidates k s w))) out
      ∧ match r with
        | Ok n =>
            n = count_modified out
            ∧ Forall (fun e => is_failure e = false) out
            ∧ cursor_fails (find_candidates k s w) = false
            ∧ s' = (if 0 <? n then set_stats (add_updated k n (stats s)) s else s)
        | Raise e =>
            s' = s
            ∧ ((∃ out0 ev, out = out0 ++ [ev] ∧ is_failure ev = true
                           ∧ Forall (fun e => is_failure e = false) out0)
               ∨ (e = KeyError ∧ Forall (fun e => is_failure e = false) out
                  ∧ ∃ doc, doc ∈ yielded (find_candidates k s w)
                           ∧ doc !! "_id" = None))
        end
  end.
Proof.
  rewrite process_body_eq. unfold find_candidates, target_collection.
  destruct (db s) as [d|]; [|by eauto].
  destruct (get_collection d _) as [collection|e]; [|by eauto].
  cbv zeta. destruct (find _ _ _) as [documents w1] eqn:Hfind. cbn [fst].
  pose proof (process_documents_run k collection documents 0 s w1) as Hrun.
  destruct (process_documents _ _ _ _ _) as [[r [s2 w2]] out].
  destruct Hrun as (-> & Hout & Hr). destruct r as [n|e].
  - destruct Hr as (Hn & Hnf & Hcf). rewrite Z.add_0_l in Hn.
    assert (count_modified
              (EvFind (coll_name collection)
                 (candidate_query (old_url s) (url_fields k))
               :: out ++ (if 0 <? n then [EvLog INFO (MUpdatedCount k n)] else []))
            = count_modified out) as Hcount.
    { rewrite count_modified_cons, count_modified_app. cbn [reports_modified].
      destruct (0 <? n); [rewrite count_modified_cons|];
        change (count_modified []) with 0; simpl; lia. }
    split.
    { constructor; [done|]. apply Forall_app. split; [done|].
      destruct (0 <? n); by repeat constructor. }
    rewrite Hcount. split; [done|]. split; [|done].
    constructor; [done|]. apply Forall_app. split; [done|].
    destruct (0 <? n); by repeat constructor.
  - split; [by constructor|]. split; [done|].
    destruct Hr as [(out0 & ev & -> & Hev & Hnf)|(-> & Hnf & Hdoc)].
    + left. eexists (_ :: out0), ev. repeat split; [done|by constructor].
    + right. repeat split; [by constructor|done].
Qed.

(** Membership in the events of the method, read back into those of its
    [try] block: the handler only adds a record of the log. *)
Lemma process_collection_update_event k (st : state (W := W)) c i f a :
  EvUpdateOne c i f a ∈ (process_collection k st).2 →
  EvUpdateOne c i f a ∈ (process_body k st).2.
Proof.
  rewrite process_collection_eq.
  destruct (process_body k st) as [[[n|e] [s1 w1]] out]; [done|].
  destruct e; try done. simpl. rewrite elem_of_app, list_elem_of_singleton.
  by intros [?|?].
Qed.

(** Every [update_one] of a method writes back a rewritten candidate of
    its target. *)
Lemma process_collection_updates k s (w : W) c i f a :
  EvUpdateOne c i f a ∈ (process_collection k (s, w)).2 →
  ∃ collection,
    target_collection k s = Some collection
    ∧ update_of_candidate k (coll_name collection) s
        (yielded (find_candidates k s w)) (EvUpdateOne c i f a).
Proof.
  intros Hin%process_collection_update_event.
  pose proof (process_body_run k s w) as Hrun.
  destruct (process_body k (s, w)) as [[r [s' w']] out]. simpl in Hin.
  destruct (target_collection k s) as [collection|].
  - exists collection. split; [done|]. destruct Hrun as [Hout _].
    by eapply Forall_forall in Hout.
  - destruct Hrun as (-> & _). by apply elem_of_nil in Hin.
Qed.

Lemma target_collection_set_stats k st s :
  target_collection (W := W) k (set_stats st s) = target_collection k s.
Proof. by destruct k. Qed.

(** One check cycle, in terms of its two passes. *)
Lemma run_check_eq (st : state (W := W)) :
  run_check st
  = let '(r1, st1, out1) := process_groundtruth_collection st in
    match r1 with
    | Raise e => (Raise e, st1, out1)
    | Ok gt =>
        let '(r2, (s2, w2), out2) := process_user_clothes_collection st1 in
        match r2 with
        | Raise e => (Raise e, (s2, w2), out1 ++ out2)
        | Ok uc =>
            let '(now, w3) := utcnow w2 in
            (Ok tt, (set_stats (set_last_check now (stats s2)) s2, w3),
             out1 ++ out2
             ++ (if (0 <? gt) || (0 <? uc) then [EvLog INFO (MCheckComplete gt uc)]
                 else []))
        end
    end.
Proof.
  unfold run_check. unfold bind at 1.
  destruct (process_groundtruth_collection st) as [[[gt|e] st1] out1]; [|done].
  unfold bind at 1.
  destruct (process_user_clothes_collection st1) as [[[uc|e] [s2 w2]] out2]; [|done].
  rewrite bind_ask. destruct (utcnow w2) as [now w3]. unfold modify_stats.
  rewrite bind_modify_self.
  by destruct ((0 <? gt) || (0 <? uc)).
Qed.

(** A pass changes nothing of the service object but its statistics. *)
Lemma process_collection_self k s (w : W) :
  ∃ st, (process_collection k (s, w)).1.2.1 = set_stats st s.
Proof.
  assert (s = set_stats (stats s) s) as Hs by by destruct s.
  rewrite process_collection_eq.
  pose proof (process_body_run k s w) as Hrun.
  destruct (process_body k (s, w)) as [[r [s1 w1]] out].
  assert (∃ st, s1 = set_stats st s) as [st ->].
  { destruct (target_collection k s).
    - destruct Hrun as [_ Hr]. destruct r as [n|e].
      + destruct Hr as (_ & _ & _ & ->). destruct (0 <? n); eauto.
      + destruct Hr as [-> _]. eauto.
    - destruct Hrun as (_ & -> & _). eauto. }
  destruct r as [n|[]]; simpl; eauto.
Qed.

End ServiceFacts.

(** ** What is written back *)

Lemma url_fields_NoDup k : List.NoDup (url_fields k).
Proof.
  destruct k; repeat constructor; simpl; intros Hin;
    repeat (destruct Hin as [Hin|Hin]; [discriminate|]); done.
Qed.

Lemma url_fields_count k x :
  count_occ string_dec (url_fields k) x
  = if bool_decide (x ∈ url_fields k) then 1%nat else 0%nat.
Proof.
  case_bool_decide as Hx.
  - apply NoDup_count_occ'; [apply url_fields_NoDup|by apply list_elem_of_In].
  - apply count_occ_not_In. by rewrite <- list_elem_of_In.
Qed.

Lemma url_fields_not_id k : "_id" ∉ url_fields k.
Proof. destruct k; apply (bool_decide_unpack _); by vm_compute. Qed.

Lemma url_fields_not_updatedAt k : "updatedAt" ∉ url_fields k.
Proof. destruct k; apply (bool_decide_unpack _); by vm_compute. Qed.

(** The document after [replace_url_in_dict] over the fields of a target. *)
Lemma rewritten_target_lookup k old new (doc : document) x :
  (replace_url_in_dict old new doc (url_fields k)).1 !! x
  = if bool_decide (x ∈ url_fields k) then rewritten old new <$> doc !! x
    else doc !! x.
Proof.
  unfold replace_url_in_dict. rewrite rewrite_loop_lookup, url_fields_count.
  case_bool_decide; by destruct (doc !! x).
Qed.

Lemma written_fields_lookup k now (d : document) x :
  written_fields k now d !! x
  = if bool_decide (adds_updatedAt k = true ∧ x = "updatedAt") then Some (VDate now)
    else if bool_decide (x = "_id") then None
    else d !! x.
Proof.
  unfold written_fields. destruct (adds_updatedAt k).
  - case_bool_decide as Hx.
    + destruct Hx as [_ ->]. by rewrite lookup_insert_eq.
    + rewrite lookup_insert_ne by (intros <-; by apply Hx).
      case_bool_decide as Hid; [subst; by rewrite lookup_delete_eq|].
      by rewrite lookup_delete_ne.
  - rewrite bool_decide_eq_false_2 by (by intros [? _]).
    case_bool_decide as Hid; [subst; by rewrite lookup_delete_eq|].
    by rewrite lookup_delete_ne.
Qed.

(** * The claims *)

(** ** [replace_url_in_dict] *)

(** C1, as stated, fails on a field that holds the empty string when the old
    URL is the empty string: the field is present, not [None], a [str], and
    contains the old URL ([Python]: ['' in ''] is [True], and
    [''.replace('', 'X')] is ['X']), yet the guard [data[field] and ...]
    skips it: the document is returned as it was, with the flag [False]. *)
Lemma empty_string_field_not_rewritten :
  ({["minioUrl" := VStr ""]} : document) !! "minioUrl" = Some (VStr "")
  ∧ PyStr.str_in "" "" = true
  ∧ PyStr.replace "" "" "X" = "X"
  ∧ replace_url_in_dict "" "X" {["minioUrl" := VStr ""]} ["minioUrl"]
    = ({["minioUrl" := VStr ""]}, false).
Proof. repeat split; reflexivity. Qed.

(** C1 (amended). For every document and ordered field list,
    [replace_url_in_dict] replaces, in each listed field that is present and
    holds a non-empty string containing the old URL, every occurrence of the
    old URL by the new one, and returns the document with a flag that is
    true exactly when such a field was listed.
    - Each listing of a field applies [rewritten] once to its value; a field
      that is not listed, or absent, is left as it is.
    - A field listed once that holds a non-empty string [s] containing the
      old URL holds [s.replace(old, new)] afterwards.
    - [s.replace(old, new)], for a non-empty [old], cuts [s] at occurrences
      of [old] into pieces free of [old] and joins them with [new]: all
      occurrences go, not only the first.
    - The flag is true exactly when some listed field holds a non-empty
      string containing the old URL. *)
Theorem replace_url_in_dict_rewrites (old new : string) (data : document)
    (fields : list string) :
  let result := replace_url_in_dict old new data fields in
  (∀ k, result.1 !! k
        = Nat.iter (count_occ string_dec fields k) (rewritten old new) <$> data !! k)
  ∧ (∀ k, k ∉ fields → result.1 !! k = data !! k)
  ∧ (∀ f s, count_occ string_dec fields f = 1%nat →
            data !! f = Some (VStr s) → s ≠ "" → PyStr.str_in old s = true →
            result.1 !! f = Some (VStr (PyStr.replace s old new)))
  ∧ (∀ s, old ≠ "" →
          ∃ pieces, s = PyStr.join old pieces
                    ∧ PyStr.replace s old new = PyStr.join new pieces
                    ∧ Forall (fun p => PyStr.str_in old p = false) pieces)
  ∧ (result.2 = true
     ↔ ∃ f s, f ∈ fields ∧ data !! f = Some (VStr s) ∧ s ≠ ""
              ∧ PyStr.str_in old s = true).
Proof.
  intros result. subst result. unfold replace_url_in_dict.
  split; [intros k; apply rewrite_loop_lookup|].
  split.
  { intros k Hk. rewrite rewrite_loop_lookup.
    rewrite (proj1 (count_occ_not_In string_dec fields k)).
    - by destruct (data !! k).
    - by rewrite <- list_elem_of_In. }
  split.
  { intros f s Hcount Hf Hs Hin. rewrite rewrite_loop_lookup, Hcount, Hf.
    cbn [Nat.iter nat_rect fmap option_fmap option_map rewritten].
    assert (eligible old (VStr s) = true) as ->; [|done].
    apply eligible_spec. by exists s. }
  split; [intros s Hold; by apply PyStrFacts.replace_pieces|].
  rewrite rewrite_loop_flag. cbn [orb]. apply exists_eligible.
Qed.

(** For a non-empty old URL and a field list without repetition the
    rewrite is as C1 states it: every listed field that holds a string
    containing the old URL has all occurrences replaced, and the flag tells
    whether there was such a field. *)
Corollary replace_url_in_dict_nonempty_old (old new : string) (data : document)
    (fields : list string) :
  old ≠ "" → List.NoDup fields →
  let result := replace_url_in_dict old new data fields in
  (∀ f s, f ∈ fields → data !! f = Some (VStr s) → PyStr.str_in old s = true →
          result.1 !! f = Some (VStr (PyStr.replace s old new)))
  ∧ (result.2 = true
     ↔ ∃ f s, f ∈ fields ∧ data !! f = Some (VStr s) ∧ PyStr.str_in old s = true).
Proof.
  intros Hold Hnodup result. subst result. unfold replace_url_in_dict.
  assert (∀ s, PyStr.str_in old s = true → s ≠ "") as Hne.
  { intros s Hin ->. by rewrite PyStrFacts.str_in_nil_r in Hin. }
  split.
  - intros f s Hf Hs Hin. rewrite rewrite_loop_lookup, Hs.
    rewrite (proj1 (NoDup_count_occ' string_dec fields) Hnodup f)
      by by apply list_elem_of_In.
    cbn [Nat.iter nat_rect fmap option_fmap option_map rewritten].
    assert (eligible old (VStr s) = true) as ->; [|done].
    apply eligible_spec. exists s. by auto.
  - rewrite rewrite_loop_flag. cbn [orb]. rewrite exists_eligible. split.
    + intros (f & s & ? & ? & _ & ?). by exists f, s.
    + intros (f & s & ? & ? & ?). exists f, s. by auto.
Qed.

(** C6. Rewriting an already-migrated document, one whose listed fields hold
    no occurrence of the old URL, is a no-op: the document comes back
    unchanged and the flag is false. *)
Theorem replace_url_in_dict_migrated (old new : string) (data : document)
    (fields : list string) :
  (∀ f s, f ∈ fields → data !! f = Some (VStr s) → PyStr.str_in old s = false) →
  replace_url_in_dict old new data fields = (data, false).
Proof.
  intros Hclean. apply rewrite_loop_id.
  destruct (existsb _ fields) eqn:Hex; [|done].
  apply exists_eligible in Hex as (f & s & Hf & Hs & _ & Hin).
  by rewrite (Hclean f s Hf Hs) in Hin.
Qed.

(** A ground-truth document whose URLs already start with the new URL. *)
Lemma replace_url_in_dict_migrated_witness :
  replace_url_in_dict "http://OLD" "https://NEW"
    {["_id" := VInt 1; "minioUrl" := VStr "https://NEW/x.png";
      "s3Url" := VStr "https://NEW/y.png"]}
    (url_fields Groundtruth)
  = ({["_id" := VInt 1; "minioUrl" := VStr "https://NEW/x.png";
       "s3Url" := VStr "https://NEW/y.png"]}, false).
Proof.
  apply replace_url_in_dict_migrated. intros f s Hf Hs.
  unfold url_fields in Hf.
  repeat (apply elem_of_cons in Hf as [->|Hf]);
    [vm_compute in Hs; injection Hs as <-; reflexivity
    |vm_compute in Hs; injection Hs as <-; reflexivity
    |vm_compute in Hs; discriminate
    |vm_compute in Hs; discriminate
    |by apply elem_of_nil in Hf].
Defined.

(** ** What [update_one] is called with *)

(** C2, as stated, fails: the fields passed to [$set] are not only the
    changed ones. For the ground-truth document [shirt], whose [minioUrl]
    is stale, the first [update_one] of the method also sets [name], which
    [replace_url_in_dict] left as it was. *)
Lemma update_sets_unchanged_field :
  update_calls
    (process_groundtruth_collection (Examples.service, Examples.store [])).2
  = [("imageUrl", VInt 1,
      {["minioUrl" := VStr "https://NEW/x.png"; "name" := VStr "shirt"]});
     ("imageUrl", VInt 2, {["s3Url" := VStr "https://NEW/y.png"]})]
  ∧ Examples.shirt !! "name" = Some (VStr "shirt").
Proof. by_evaluation. Qed.

Section UpdateClaims.

Context {W : Type} `{World W}.

(** What the fields written back for [doc] do to [doc]. *)
Lemma written_fields_frame k old new (doc : document) now :
  let f := written_fields k now (replace_url_in_dict old new doc (url_fields k)).1 in
  f !! "_id" = None
  ∧ (∀ x, x ≠ "_id" → is_Some (doc !! x) → is_Some (f !! x))
  ∧ (∀ x, x ∈ url_fields k → apply_set f doc !! x = rewritten old new <$> doc !! x)
  ∧ (adds_updatedAt k = true → apply_set f doc !! "updatedAt" = Some (VDate now))
  ∧ (∀ x, x ∉ url_fields k → ¬ (adds_updatedAt k = true ∧ x = "updatedAt") →
          apply_set f doc !! x = doc !! x).
Proof.
  intros f. subst f.
  assert (∀ x, apply_set
                 (written_fields k now
                    (replace_url_in_dict old new doc (url_fields k)).1)
                 doc !! x
               = if bool_decide (adds_updatedAt k = true ∧ x = "updatedAt")
                 then Some (VDate now)
                 else if bool_decide (x ∈ url_fields k)
                      then rewritten old new <$> doc !! x
                      else doc !! x) as Hset.
  { intros x. unfold apply_set.
    rewrite lookup_union, written_fields_lookup, rewritten_target_lookup.
    case_bool_decide; [by destruct (doc !! x)|]. case_bool_decide as Hx.
    - subst x. rewrite bool_decide_eq_false_2 by apply url_fields_not_id.
      by destruct (doc !! "_id").
    - case_bool_decide; by destruct (doc !! x). }
  split.
  { rewrite written_fields_lookup, bool_decide_eq_false_2 by (by intros [_ ?]).
    by rewrite bool_decide_eq_true_2. }
  split.
  { intros x Hx [v Hv]. rewrite written_fields_lookup, rewritten_target_lookup.
    case_bool_decide; [done|]. rewrite bool_decide_eq_false_2 by done.
    rewrite Hv. by case_bool_decide. }
  split.
  { intros x Hx. rewrite Hset, bool_decide_eq_false_2, bool_decide_eq_true_2; [done..|].
    intros [_ ->]. by apply url_fields_not_updatedAt in Hx. }
  split; [intros Hk; by rewrite Hset, bool_decide_eq_true_2|].
  intros x Hx Hup. by rewrite Hset, !bool_decide_eq_false_2.
Qed.

(** C2 (amended). A pass issues one [update_one] per changed candidate
    document, in the order of the cursor, up to the document at which the
    pass was left, and for all of them when its [try] block ends normally.
    Each call is on the collection of the target, restricted to the [_id]
    of its document, and its [$set] holds the whole document as rewritten,
    without [_id] and, for the user clothes, with [updatedAt]: every field
    of the document but [_id] is set, the unchanged ones to the values
    read. Applied to the document as it was read, the update rewrites the
    target fields, sets [updatedAt] for the user clothes, and alters no
    other field. *)
Theorem update_sets_rewritten_document k s (w : W) :
  ∃ docs,
    docs `prefix_of` filter (fun d => changed k s d = true)
                            (yielded (find_candidates k s w))
    ∧ (∀ n, (process_body k (s, w)).1.1 = Ok n →
            docs = filter (fun d => changed k s d = true)
                          (yielded (find_candidates k s w)))
    ∧ Forall2
        (fun (doc : document) (call : string * value * document) =>
           let '(c, i, f) := call in
           (∃ collection, target_collection k s = Some collection
                          ∧ c = coll_name collection)
           ∧ doc !! "_id" = Some i
           ∧ ∃ now,
               f = written_fields k now
                     (replace_url_in_dict (old_url s) (new_url s) doc (url_fields k)).1
               ∧ f !! "_id" = None
               ∧ (∀ x, x ≠ "_id" → is_Some (doc !! x) → is_Some (f !! x))
               ∧ (∀ x, x ∈ url_fields k →
                       apply_set f doc !! x
                       = rewritten (old_url s) (new_url s) <$> doc !! x)
               ∧ (adds_updatedAt k = true →
                  apply_set f doc !! "updatedAt" = Some (VDate now))
               ∧ (∀ x, x ∉ url_fields k →
                       ¬ (adds_updatedAt k = true ∧ x = "updatedAt") →
                       apply_set f doc !! x = doc !! x))
        docs (update_calls (process_collection k (s, w)).2).
Proof.
  destruct (process_collection_calls k s w) as (docs & Hpre & Hok & Hcalls).
  exists docs. do 2 (split; [done|]).
  eapply Forall2_impl; [done|].
  intros doc [[c i] f] (collection & Hcoll & Hc & Hid & now & Hf). simpl in *.
  split; [by exists collection|]. split; [done|]. exists now. split; [done|].
  rewrite Hf. apply written_fields_frame.
Qed.

(** The claim for one pass. *)
Lemma pass_updates_only_when_old_url_present k s (w : W) c i f a :
  EvUpdateOne c i f a ∈ (process_collection k (s, w)).2 →
  ∃ doc field str,
    doc ∈ yielded (find_candidates k s w) ∧ doc !! "_id" = Some i
    ∧ field ∈ url_fields k ∧ doc !! field = Some (VStr str)
    ∧ PyStr.str_in (old_url s) str = true.
Proof.
  intros (collection & Hcoll & -> & doc & now & Hdoc & Hid & Hmod & ->)
    %process_collection_updates.
  unfold replace_url_in_dict in Hmod. rewrite rewrite_loop_flag in Hmod.
  apply exists_eligible in Hmod as (field & str & ? & ? & _ & ?).
  by exists doc, field, str.
Qed.

(** C4. In a check cycle, an [update_one] naming a document's [_id] is
    issued only if a target field of that candidate holds a string that
    contains the old URL: a candidate with no occurrence in any target field
    is never written back. The candidate is one of the ground-truth pass,
    run in the state the cycle starts in, or one of the user-clothes pass,
    run in the state the ground-truth pass leaves. *)
Theorem update_only_when_old_url_present s (w : W) c i f a :
  EvUpdateOne c i f a ∈ (run_check (s, w)).2 →
  ∃ k st doc field str,
    (k = Groundtruth ∧ st = (s, w)
     ∨ k = UserClothes ∧ st = (process_groundtruth_collection (s, w)).1.2)
    ∧ doc ∈ yielded (find_candidates k st.1 st.2) ∧ doc !! "_id" = Some i
    ∧ field ∈ url_fields k ∧ doc !! field = Some (VStr str)
    ∧ PyStr.str_in (old_url s) str = true.
Proof.
  rewrite run_check_eq. unfold process_groundtruth_collection.
  pose proof (pass_updates_only_when_old_url_present Groundtruth s w c i f a) as Hgt.
  destruct (process_collection_self Groundtruth s w) as [st Hself].
  destruct (process_collection Groundtruth (s, w)) as [[r1 [s1 w1]] out1].
  simpl in Hgt, Hself. subst s1.
  pose proof (pass_updates_only_when_old_url_present UserClothes
                (set_stats st s) w1 c i f a) as Huc.
  assert (EvUpdateOne c i f a ∈ out1 →
          ∃ k st0 doc field str,
            (k = Groundtruth ∧ st0 = (s, w)
             ∨ k = UserClothes ∧ st0 = (set_stats st s, w1))
            ∧ doc ∈ yielded (find_candidates k st0.1 st0.2) ∧ doc !! "_id" = Some i
            ∧ field ∈ url_fields k ∧ doc !! field = Some (VStr str)
            ∧ PyStr.str_in (old_url s) str = true) as Hleft.
  { intros (doc & field & str & ?)%Hgt.
    exists Groundtruth, (s, w), doc, field, str. split; [by left|done]. }
  destruct r1 as [gt|e]; [|done].
  unfold process_user_clothes_collection.
  destruct (process_collection UserClothes _) as [[r2 [s2 w2]] out2].
  assert (EvUpdateOne c i f a ∈ out2 →
          ∃ k st0 doc field str,
            (k = Groundtruth ∧ st0 = (s, w)
             ∨ k = UserClothes ∧ st0 = (set_stats st s, w1))
            ∧ doc ∈ yielded (find_candidates k st0.1 st0.2) ∧ doc !! "_id" = Some i
            ∧ field ∈ url_fields k ∧ doc !! field = Some (VStr str)
            ∧ PyStr.str_in (old_url s) str = true) as Hright.
  { intros (doc & field & str & ?)%Huc.
    exists UserClothes, (set_stats st s, w1), doc, field, str. split; [by right|done]. }
  destruct r2 as [uc|e].
  - destruct (utcnow w2) as [now w3]. cbn [snd]. rewrite !elem_of_app.
    intros [?|[?|Hlog]]; [by apply Hleft|by apply Hright|].
    destruct ((0 <? gt) || (0 <? uc)).
    + by apply list_elem_of_singleton in Hlog.
    + by apply elem_of_nil in Hlog.
  - cbn [snd]. rewrite elem_of_app. intros [?|?]; [by apply Hleft|by apply Hright].
Qed.

(** C7. [updatedAt] is put into what an [update_one] sets only by the
    method for the user clothes, and an [update_one] is only issued for a
    document that [replace_url_in_dict] has changed. What the ground-truth
    method sets has [updatedAt] only if the document had it, with the
    value it had: a ground-truth document never gains the field. *)
Theorem updatedAt_only_for_user_clothes k s (w : W) c i f a :
  EvUpdateOne c i f a ∈ (process_collection k (s, w)).2 →
  ∃ doc,
    doc ∈ yielded (find_candidates k s w) ∧ doc !! "_id" = Some i
    ∧ (replace_url_in_dict (old_url s) (new_url s) doc (url_fields k)).2 = true
    ∧ match k with
      | Groundtruth =>
          f !! "updatedAt" = doc !! "updatedAt"
          ∧ apply_set f doc !! "updatedAt" = doc !! "updatedAt"
      | UserClothes => ∃ now, f !! "updatedAt" = Some (VDate now)
      end.
Proof.
  intros (collection & Hcoll & -> & doc & now & Hdoc & Hid & Hmod & ->)
    %process_collection_updates.
  exists doc. do 3 (split; [done|]). destruct k.
  - assert (written_fields Groundtruth now
              (replace_url_in_dict (old_url s) (new_url s) doc
                 (url_fields Groundtruth)).1 !! "updatedAt"
            = doc !! "updatedAt") as Hf.
    { rewrite written_fields_lookup, rewritten_target_lookup.
      rewrite bool_decide_eq_false_2 by (by intros [? _]).
      rewrite bool_decide_eq_false_2 by done.
      by rewrite bool_decide_eq_false_2 by apply url_fields_not_updatedAt. }
    split; [done|]. unfold apply_set. rewrite lookup_union, Hf.
    by destruct (doc !! "updatedAt").
  - exists now. rewrite written_fields_lookup. by rewrite bool_decide_eq_true_2.
Qed.

End UpdateClaims.

(** A cycle in memory: the [update_one] for the upload of [_id] 7. *)
Lemma update_only_when_old_url_present_witness :
  ∃ k st doc field str,
    (k = Groundtruth ∧ st = (Examples.service, Examples.store [])
     ∨ k = UserClothes
       ∧ st = (process_groundtruth_collection
                 (Examples.service, Examples.store [])).1.2)
    ∧ doc ∈ yielded (find_candidates k st.1 st.2) ∧ doc !! "_id" = Some (VInt 7)
    ∧ field ∈ url_fields k ∧ doc !! field = Some (VStr str)
    ∧ PyStr.str_in (old_url Examples.service) str = true.
Proof.
  apply (update_only_when_old_url_present (W := Mem.mem) Examples.service
           (Examples.store []) "userUploadedClothes" (VInt 7)
           {["imageUrl" := VStr "https://NEW/u.png"; "updatedAt" := VDate 100]} (Ok 1)).
  by_evaluation.
Defined.

(** A pass in memory: the [update_one] for the upload of [_id] 7. *)
Lemma updatedAt_only_for_user_clothes_witness :
  ∃ doc,
    doc ∈ yielded (find_candidates UserClothes Examples.service (Examples.store []))
    ∧ doc !! "_id" = Some (VInt 7)
    ∧ (replace_url_in_dict "http://OLD" "https://NEW" doc (url_fields UserClothes)).2 = true
    ∧ ∃ now, ({["imageUrl" := VStr "https://NEW/u.png"; "updatedAt" := VDate 100]}
               : document) !! "updatedAt" = Some (VDate now).
Proof.
  apply (updatedAt_only_for_user_clothes (W := Mem.mem) UserClothes Examples.service
           (Examples.store []) "userUploadedClothes" (VInt 7)
           {["imageUrl" := VStr "https://NEW/u.png"; "updatedAt" := VDate 100]} (Ok 1)).
  by_evaluation.
Defined.

(** ** Counting and failing *)

Section PassClaims.

Context {W : Type} `{World W}.

(** C9. When every call of a pass on the store is answered, the pass
    returns the number of [update_one] calls whose answer reports a
    modified document. An answer with [modified_count = 0] is no failure:
    it is not counted, nothing is raised and the error counter stays. *)
Theorem counts_reported_modifications k s (w : W) :
  target_collection k s ≠ None →
  Forall (fun doc : document => is_Some (doc !! "_id"))
         (yielded (find_candidates k s w)) →
  Forall (fun e => is_failure e = false) (process_collection k (s, w)).2 →
  let '(r, (s', _), out) := process_collection k (s, w) in
  r = Ok (count_modified out)
  ∧ errors (stats s') = errors (stats s)
  ∧ stats s' = (if 0 <? count_modified out
                then add_updated k (count_modified out) (stats s)
                else stats s).
Proof.
  intros Hcoll Hids. rewrite process_collection_eq.
  pose proof (process_body_run k s w) as Hrun.
  destruct (process_body k (s, w)) as [[r [s1 w1]] out].
  destruct (target_collection k s) as [collection|]; [|done].
  destruct Hrun as [_ Hr]. destruct r as [n|e].
  - intros _. destruct Hr as (-> & _ & _ & ->).
    split; [done|]. destruct (0 <? count_modified out); [|done].
    split; [by destruct k|done].
  - intros Hnf. exfalso.
    destruct Hr as [-> [(out0 & ev & -> & Hev & _)|(-> & _ & doc & Hdoc & Hnone)]].
    + assert (Forall (fun e => is_failure e = false) (out0 ++ [ev])) as Hall.
      { destruct e; simpl in Hnf; try done. by apply Forall_app in Hnf as [? _]. }
      apply Forall_app in Hall as [_ [Hf _]%Forall_cons]. congruence.
    + eapply Forall_forall in Hids as [? ?]; [|done]. congruence.
Qed.

(** C10. The statistics after a pass, by the outcome of its [try] block.
    The counter of the target moves only when the block ends normally,
    and then by the returned count. When the block raises [PyMongoError],
    also after [update_one] calls that did modify documents, the method
    returns 0, both counters stay and the error counter goes up by one. *)
Theorem statistics_after_pass k s (w : W) :
  let '(r, (s', _), out) := process_collection k (s, w) in
  match (process_body k (s, w)).1.1 with
  | Ok n =>
      r = Ok n ∧ n = count_modified out
      ∧ stats s' = (if 0 <? n then add_updated k n (stats s) else stats s)
  | Raise PyMongoError =>
      r = Ok 0
      ∧ groundtruth_updated (stats s') = groundtruth_updated (stats s)
      ∧ user_clothes_updated (stats s') = user_clothes_updated (stats s)
      ∧ errors (stats s') = errors (stats s) + 1
  | Raise e => r = Raise e ∧ stats s' = stats s
  end.
Proof.
  rewrite process_collection_eq.
  pose proof (process_body_run k s w) as Hrun.
  destruct (process_body k (s, w)) as [[r [s1 w1]] out]. cbn [fst].
  assert (match r with
          | Ok n => n = count_modified out
                    ∧ s1 = (if 0 <? n then set_stats (add_updated k n (stats s)) s else s)
          | Raise _ => s1 = s
          end) as Hr.
  { destruct (target_collection k s).
    - destruct Hrun as [_ Hr]. destruct r; [|by destruct Hr].
      by destruct Hr as (? & _ & _ & ?).
    - by destruct Hrun as (_ & -> & e & ->). }
  destruct r as [n|e].
  - destruct Hr as [Hn ->]. repeat split; [done|]. by destruct (0 <? n).
  - subst s1. by destruct e.
Qed.

(** C5. When the [try] block of a pass raises [PyMongoError], the method
    returns 0 and the error counter goes up by one; after the call that
    failed, only the error is logged: the rest of the pass is given up.
    When this happens in the ground-truth pass, the cycle goes on with the
    whole pass over the user clothes, which queries its collection. *)
Theorem store_failure_aborts_pass k s (w : W) :
  (process_body k (s, w)).1.1 = Raise PyMongoError →
  let '(r, (s', w'), out) := process_collection k (s, w) in
  r = Ok 0
  ∧ errors (stats s') = errors (stats s) + 1
  ∧ (∀ out1 e out2, out = out1 ++ e :: out2 → is_failure e = true →
                    out2 = [EvLog ERROR (MProcessingError k)])
  ∧ (k = Groundtruth →
     (∃ tail, (run_check (s, w)).2
              = out ++ (process_user_clothes_collection (s', w')).2 ++ tail)
     ∧ ∀ c, target_collection UserClothes s = Some c →
            EvFind (coll_name c)
              (candidate_query (old_url s) (url_fields UserClothes))
            ∈ (process_user_clothes_collection (s', w')).2).
Proof.
  intros Hfail.
  pose proof (process_collection_eq k (s, w)) as Heq.
  pose proof (process_body_run k s w) as Hrun.
  destruct (process_body k (s, w)) as [[rb [s1 w1]] outb]. simpl in Hfail. subst rb.
  assert (s1 = s
          ∧ ∀ out1 e out2, outb = out1 ++ e :: out2 → is_failure e = true → out2 = [])
    as [-> Hlast].
  { destruct (target_collection k s).
    - destruct Hrun as (_ & -> & [(out0 & ev & -> & _ & Hnf)|(? & _)]); [|done].
      split; [done|]. intros out1 e out2 Heq' He.
      by eapply nothing_after_failure.
    - destruct Hrun as (-> & -> & _). split; [done|].
      intros [|??] ???; discriminate. }
  destruct (process_collection k (s, w)) as [[r [s' w']] out] eqn:Hpc.
  injection Heq as -> -> -> ->. do 2 (split; [done|]). split.
  { intros out1 e out2 Heq He.
    destruct out2 as [|x out2 _] using rev_ind.
    - apply app_inj_tail in Heq as [_ <-]. done.
    - rewrite app_comm_cons, app_assoc in Heq. apply app_inj_tail in Heq as [Heq <-].
      by rewrite (Hlast _ _ _ Heq He). }
  intros ->. split.
  - rewrite run_check_eq. unfold process_groundtruth_collection. rewrite Hpc.
    destruct (process_user_clothes_collection _) as [[[uc|e] [s2 w2]] out2].
    + destruct (utcnow w2). simpl. eauto.
    + exists []. simpl. by rewrite app_nil_r.
  - intros c Hc. unfold process_user_clothes_collection.
    rewrite process_collection_eq, process_body_eq.
    rewrite <- (target_collection_set_stats UserClothes (add_error (stats s))) in Hc.
    unfold target_collection in Hc. simpl in *.
    destruct (db s) as [d|]; [|done].
    destruct (get_collection d _) as [c'|]; [|done]. injection Hc as ->.
    cbv zeta. destruct (find _ _ _) as [documents w2].
    destruct (process_documents _ _ _ _ _) as [[[n|e] [s2 w3]] out2]; simpl.
    + apply list_elem_of_here.
    + destruct e; simpl; rewrite ?elem_of_app; try left; apply list_elem_of_here.
Qed.

End PassClaims.

(** ** Passes and cycles in memory *)

(** The scenario of a document with two stale URLs: one [update_one] with
    both fields rewritten, counted once; a second cycle finds nothing left
    to do. *)
Example two_stale_urls_one_update :
  let doc : document :=
    {["_id" := VInt 1; "minioUrl" := VStr "http://OLD/x.png";
      "s3Url" := VStr "http://OLD/y.png"]} in
  let first := run_check (Examples.service, Mem.Mk [("imageUrl", doc)] 100 [] []) in
  let st := first.1.2 in
  first.1.1 = Ok tt
  ∧ update_calls first.2
    = [("imageUrl", VInt 1,
        {["minioUrl" := VStr "https://NEW/x.png";
          "s3Url" := VStr "https://NEW/y.png"]})]
  ∧ stats st.1 = Stats 1 0 0 (Some 100)
  ∧ Mem.mem_docs st.2
    = [("imageUrl",
        {["_id" := VInt 1; "minioUrl" := VStr "https://NEW/x.png";
          "s3Url" := VStr "https://NEW/y.png"]})]
  ∧ update_calls (run_check st).2 = []
  ∧ stats (run_check st).1.2.1 = Stats 1 0 0 (Some 101).
Proof. by_evaluation. Qed.

(** A pass in memory whose first [update_one] is answered with
    [modified_count = 0] and whose second with 1. *)
Lemma counts_reported_modifications_witness :
  let '(r, (s', _), out) :=
    process_collection Groundtruth
      (Examples.service, Examples.store [Mem.NoFault; Mem.Unmodified; Mem.NoFault]) in
  r = Ok (count_modified out)
  ∧ errors (stats s') = errors (stats Examples.service)
  ∧ stats s' = (if 0 <? count_modified out
                then add_updated Groundtruth (count_modified out) (stats Examples.service)
                else stats Examples.service).
Proof.
  apply (counts_reported_modifications (W := Mem.mem) Groundtruth Examples.service
           (Examples.store [Mem.NoFault; Mem.Unmodified; Mem.NoFault])).
  - by_evaluation.
  - by_evaluation.
  - by_evaluation.
Defined.

(** The run of the witness above: the first [update_one] reports no
    modification, the second reports one; the pass returns 1 and counts 1,
    with no error. *)
Example unmodified_update_is_not_counted :
  let pass :=
    process_collection Groundtruth
      (Examples.service, Examples.store [Mem.NoFault; Mem.Unmodified; Mem.NoFault]) in
  pass.1.1 = Ok 1
  ∧ stats pass.1.2.1 = Stats 1 0 0 None
  ∧ omap (fun e => match e with EvUpdateOne _ i _ a => Some (i, a) | _ => None end) pass.2
    = [(VInt 1, Ok 0); (VInt 2, Ok 1)].
Proof. by_evaluation. Qed.

(** A pass whose second [update_one] raises after the first has modified a
    document: the method returns 0, the counters stay at 0, one error is
    counted. *)
Example failed_pass_counts_nothing :
  let pass :=
    process_collection Groundtruth
      (Examples.service, Examples.store [Mem.NoFault; Mem.NoFault; Mem.Fails 0]) in
  pass.1.1 = Ok 0
  ∧ stats pass.1.2.1 = Stats 0 0 1 None
  ∧ omap (fun e => match e with EvUpdateOne _ i _ a => Some (i, a) | _ => None end) pass.2
    = [(VInt 1, Ok 1); (VInt 2, Raise PyMongoError)].
Proof. by_evaluation. Qed.

(** A cycle in memory whose first [update_one] on the ground truth raises. *)
Lemma store_failure_aborts_pass_witness :
  let '(r, (s', w'), out) :=
    process_collection Groundtruth
      (Examples.service, Examples.store [Mem.NoFault; Mem.Fails 0]) in
  r = Ok 0
  ∧ errors (stats s') = errors (stats Examples.service) + 1
  ∧ (∀ out1 e out2, out = out1 ++ e :: out2 → is_failure e = true →
                    out2 = [EvLog ERROR (MProcessingError Groundtruth)])
  ∧ (Groundtruth = Groundtruth →
     (∃ tail, (run_check (Examples.service,
                          Examples.store [Mem.NoFault; Mem.Fails 0])).2
              = out ++ (process_user_clothes_collection (s', w')).2 ++ tail)
     ∧ ∀ c, target_collection UserClothes Examples.service = Some c →
            EvFind (coll_name c)
              (candidate_query (old_url Examples.service) (url_fields UserClothes))
            ∈ (process_user_clothes_collection (s', w')).2).
Proof.
  apply (store_failure_aborts_pass (W := Mem.mem) Groundtruth Examples.service
           (Examples.store [Mem.NoFault; Mem.Fails 0])).
  by_evaluation.
Defined.

(** The cycle of the witness above: the first [update_one] on the ground
    truth raises; the user clothes are still queried and updated. *)
Example groundtruth_failure_leaves_user_clothes :
  let cycle :=
    run_check (Examples.service, Examples.store [Mem.NoFault; Mem.Fails 0]) in
  cycle.1.1 = Ok tt
  ∧ stats cycle.1.2.1 = Stats 0 1 1 (Some 101)
  ∧ omap (fun e => match e with EvUpdateOne c i _ a => Some (c, i, a) | _ => None end)
      cycle.2
    = [("imageUrl", VInt 1, Raise PyMongoError);
       ("userUploadedClothes", VInt 7, Ok 1)].
Proof. by_evaluation. Qed.

(** ** [connect_db] and [run] *)

Section ConnectClaims.

Context {W : Type} `{World W}.

Lemma connect_db_eq s (w : W) :
  connect_db (s, w)
  = let uri := mongo_uri s in
    match new_client uri w with
    | (Raise e, w1) => connect_failed e (s, w1) [EvNewClient uri (Raise e)]
    | (Ok c, w1) =>
        match get_database c (db_name s) with
        | Raise e => connect_failed e (set_client c s, w1) [EvNewClient uri (Ok c)]
        | Ok d =>
            match ping c w1 with
            | (Raise e, w2) =>
                connect_failed e (set_db d (set_client c s), w2)
                  [EvNewClient uri (Ok c); EvPing (Raise e)]
            | (Ok _, w2) =>
                (Ok true, (set_db d (set_client c s), w2),
                 [EvNewClient uri (Ok c); EvPing (Ok tt);
                  EvLog INFO (MConnected uri); EvLog INFO (MDatabase (db_name s));
                  EvLog INFO (MOldUrl (old_url s)); EvLog INFO (MNewUrl (new_url s))])
            end
        end
    end.
Proof.
  unfold connect_db. rewrite try_except_eq, bind_get_self. cbn [fst].
  rewrite bind_call. destruct (new_client _ _) as [[c|e] w1]; [|by destruct e].
  rewrite bind_modify_self, bind_lift_result.
  destruct (get_database c _) as [d|e]; [|by destruct e].
  rewrite bind_modify_self, bind_call.
  destruct (ping c w1) as [[[]|e] w2]; [done|by destruct e].
Qed.

(** [connect_db] leaves the statistics alone, emits nothing of a cycle, and
    logs the failure when it returns [False]. *)
Lemma connect_db_run s (w : W) :
  let '(r, (s', w'), out) := connect_db (s, w) in
  stats s' = stats s
  ∧ Forall before_loop out
  ∧ (r = Ok false → EvLog ERROR MConnectFailed ∈ out).
Proof.
  rewrite connect_db_eq. cbv zeta.
  destruct (new_client _ _) as [[c|e] w1].
  2:{ destruct e; simpl; repeat split; try done;
        try (by repeat constructor); intros _; set_solver. }
  destruct (get_database c _) as [d|e].
  2:{ destruct e; simpl; repeat split; try done;
        try (by repeat constructor); intros _; set_solver. }
  destruct (ping c w1) as [[[]|e] w2].
  - simpl. repeat split; [by repeat constructor|done].
  - destruct e; simpl; repeat split; try done;
      try (by repeat constructor); intros _; set_solver.
Qed.

(** C8 (amended). If [connect_db] fails, the failure is logged and
    signalled by [False], and [run] returns at once, whatever the fuel:
    it leaves the service object and the world as [connect_db] left them
    (statistics untouched; no handle is reset or closed), never enters the
    polling loop (no query, update or sleep), and ends with the record of
    its exit, without the statistics summary. *)
Theorem failed_connect_ends_run s (w : W) fuel :
  (connect_db (s, w)).1.1 = Ok false →
  let '(r, st', out) := run fuel (s, w) in
  r = Ok Returned
  ∧ st' = (connect_db (s, w)).1.2
  ∧ stats st'.1 = stats s
  ∧ EvLog ERROR MConnectFailed ∈ out
  ∧ last out = Some (EvLog ERROR MExiting)
  ∧ Forall before_loop out.
Proof.
  intros Hfail. unfold run. rewrite bind_log. unfold bind at 1.
  pose proof (connect_db_run s w) as Hrun.
  destruct (connect_db (s, w)) as [[rc [s1 w1]] out1]. simpl in Hfail. subst rc.
  destruct Hrun as (Hstats & Hout & Hlog). cbn [negb].
  rewrite bind_log. cbn [ret fst snd]. repeat split; try done.
  - apply list_elem_of_further, elem_of_app. left. by apply Hlog.
  - by rewrite app_comm_cons, last_snoc.
  - constructor; [done|]. apply Forall_app. split; [done|]. by repeat constructor.
Qed.

End ConnectClaims.

(** A run in memory that is interrupted in its second sleep: two cycles,
    then the summary, and the client is closed. *)
Example interrupt_ends_run :
  let out :=
    (main 5 (Mem.Mk [("userUploadedClothes", Examples.upload)] 100 [] [false; true])).2 in
  (main 5 (Mem.Mk [("userUploadedClothes", Examples.upload)] 100 [] [false; true])).1.1
  = Ok Returned
  ∧ omap (fun e => match e with
                   | EvFind c _ => Some (c, Ok tt)
                   | EvSleep _ a => Some ("sleep", a)
                   | _ => None
                   end) out
    = [("imageUrl", Ok tt); ("userUploadedClothes", Ok tt); ("sleep", Ok tt);
       ("imageUrl", Ok tt); ("userUploadedClothes", Ok tt);
       ("sleep", Raise KeyboardInterrupt)]
  ∧ drop 15%nat out
    = [EvLog INFO MShuttingDown; EvLog INFO MRule; EvLog INFO MStatsHeader;
       EvLog INFO (MStatsGroundtruth 0); EvLog INFO (MStatsUserClothes 0);
       EvLog INFO (MStatsErrors 0); EvLog INFO (MStatsLastCheck (Some 102));
       EvLog INFO MRule; EvClose; EvLog INFO MConnectionClosed].
Proof. by_evaluation. Qed.

(** C8, as stated, fails: when the ping fails, [connect_db] has already
    assigned [self.client] and [self.db], and neither [connect_db] nor
    [run] takes them back or closes the client. *)
Lemma failed_connect_keeps_handles :
  (connect_db (init, Mem.Mk [] 0 [Mem.Fails 0] [])).1.1 = Ok false
  ∧ client init = None ∧ db init = None
  ∧ client (run 3 (init, Mem.Mk [] 0 [Mem.Fails 0] [])).1.2.1
    = Some (Client "mongodb://localhost:27017/")
  ∧ db (run 3 (init, Mem.Mk [] 0 [Mem.Fails 0] [])).1.2.1
    = Some (Db (Client "mongodb://localhost:27017/") "wearapp")
  ∧ EvClose ∉ (run 3 (init, Mem.Mk [] 0 [Mem.Fails 0] [])).2.
Proof. by_evaluation. Qed.

(** A start in memory where the ping raises. *)
Lemma failed_connect_ends_run_witness :
  let '(r, st', out) := run 3 (init, Mem.Mk [] 0 [Mem.Fails 0] []) in
  r = Ok Returned
  ∧ st' = (connect_db (init, Mem.Mk [] 0 [Mem.Fails 0] [])).1.2
  ∧ stats st'.1 = stats init
  ∧ EvLog ERROR MConnectFailed ∈ out
  ∧ last out = Some (EvLog ERROR MExiting)
  ∧ Forall before_loop out.
Proof.
  apply (failed_connect_ends_run (W := Mem.mem) init (Mem.Mk [] 0 [Mem.Fails 0] []) 3).
  by_evaluation.
Defined.

(** ** The candidate query *)

Module RegexFacts.
Import Regex PyStr PyStrFacts.

Lemma tokenize_literal c rest :
  plain c = true →
  tokenize (String c rest) = cons (TAtom (Lit c)) <$> tokenize rest.
Proof.
  unfold plain. rewrite !andb_true_iff, !negb_true_iff, !bool_decide_eq_false.
  intros [[[Hm Hd] Hb] Hq]. cbn [tokenize].
  by rewrite !bool_decide_eq_false_2, Hm by done.
Qed.

Lemma tokenize_escaped_slash rest :
  tokenize (String "\" (String "/" rest))
  = cons (TAtom (Lit "/")) <$> tokenize rest.
Proof. reflexivity. Qed.

Lemma plain_not_dot c : plain c = true → c ≠ "."%char.
Proof. intros Hc ->. by vm_compute in Hc. Qed.

(** The pattern built from an old URL of plain characters and dots is that
    URL, character by character, with a wildcard for each dot. *)
Lemma tokenize_escaped old :
  dotted_str old = true →
  tokenize (replace old "/" "\/")
  = Some ((fun c => TAtom (atom_of c)) <$> list_ascii_of_string old).
Proof.
  assert (∀ s, replace s "/" "\/" = replace_from "/" "\/" 0 s) as -> by done.
  induction old as [|c old IH]; [done|].
  cbn [dotted_str]. intros [Hc Hold]%andb_true_iff.
  cbn [list_ascii_of_string fmap list_fmap].
  destruct (decide (c = "/"%char)) as [->|Hne].
  - rewrite replace_from_match;
      [|done|by rewrite prefix_cons, prefix_nil, bool_decide_eq_true_2].
    cbn [String.length drop].
    change ("\/" +:+ ?s) with (String "\" (String "/" s)).
    by rewrite tokenize_escaped_slash, IH.
  - rewrite replace_from_no_match
      by (rewrite prefix_cons; by rewrite bool_decide_eq_false_2 by congruence).
    unfold atom_of at 1. apply orb_true_iff in Hc as [Hc|Hc].
    + rewrite tokenize_literal, IH by done.
      by rewrite bool_decide_eq_false_2 by by apply plain_not_dot.
    + apply bool_decide_eq_true in Hc as ->. cbn [tokenize]. by rewrite IH.
Qed.

(** Without question marks no item is optional. *)
Lemma group_atoms (l : list atom) :
  group (TAtom <$> l) = Some ((fun a => (a, false)) <$> l).
Proof.
  induction l as [|a l IH]; [done|].
  cbn [fmap list_fmap group]. fold (fmap (M := list) TAtom l). rewrite IH.
  by destruct l.
Qed.

Lemma parse_escaped old :
  dotted_str old = true → parse (replace old "/" "\/") = Some (items_of old).
Proof.
  intros Hold. unfold parse, items_of. rewrite (tokenize_escaped old Hold).
  cbn [mbind option_bind].
  rewrite (list_fmap_compose atom_of TAtom), group_atoms.
  by rewrite <- list_fmap_compose.
Qed.




(** With wildcards for the dots, the items match wherever the string
    itself matches. *)
Lemma match_here_dotted p s :
  String.prefix (lower_str p) (lower_str s) = true →
  match_here true (items_of p) s = true.
Proof.
  unfold items_of. revert s. induction p as [|a p IH]; intros s; [by destruct s|].
  destruct s as [|c s]; [done|].
  cbn [list_ascii_of_string fmap list_fmap match_here lower_str].
  rewrite prefix_cons. intros [Hc Hp]%andb_true_iff.
  rewrite (IH _ Hp). unfold atom_of.
  destruct (decide (a = "."%char)) as [->|Ha].
  - rewrite bool_decide_eq_true_2 by done. cbn [atom_matches].
    apply bool_decide_eq_true in Hc.
    rewrite bool_decide_eq_false_2; [done|]. intros ->. by vm_compute in Hc.
  - rewrite bool_decide_eq_false_2 by done. cbn [atom_matches]. by rewrite Hc.
Qed.

Lemma search_dotted p s :
  str_in_ci p s = true → search true (items_of p) s = true.
Proof.
  unfold str_in_ci. induction s as [|c s IH]; cbn [search lower_str str_in].
  - rewrite !orb_false_r. apply (match_here_dotted p "").
  - intros [Hp|Hin]%orb_true_iff.
    + by rewrite (match_here_dotted _ (String c s)).
    + rewrite (IH Hin). apply orb_true_r.
Qed.

End RegexFacts.


(** For an old URL of plain characters and dots, the default among them, the
    candidate query misses no document: whenever a target field holds a
    string that contains the old URL, case apart, the document is selected.
    The dots only make the query select more. *)
Lemma candidate_query_covers old fields (doc : document) f s :
  Regex.dotted_str old = true →
  f ∈ fields → doc !! f = Some (VStr s) → PyStr.str_in_ci old s = true →
  query_matches (candidate_query old fields) doc = Some true.
Proof.
  intros Hold Hf Hs Hin. unfold query_matches, candidate_query. cbn [or_clauses].
  assert (∀ g, clause_matches
                 (FieldRegex g (PyStr.replace old "/" "\/") "i") doc
               = Some (match doc !! g with
                       | Some (VStr t) => Regex.search true (Regex.items_of old) t
                       | _ => false
                       end)) as Hclause.
  { intros g. unfold clause_matches, Regex.regex_search.
    cbn [fr_field fr_regex fr_options].
    rewrite (RegexFacts.parse_escaped old Hold).
    by destruct (doc !! g) as [[| | |t| | |]|]. }
  assert (∀ gs, ∃ b, or_matches
                       (map (fun field =>
                               FieldRegex field (PyStr.replace old "/" "\/") "i") gs)
                       doc = Some b) as Htotal.
  { induction gs as [|g gs [b IH]]; [by eexists|].
    cbn [map or_matches]. rewrite Hclause, IH. by eexists. }
  induction fields as [|g fields IH]; [by apply elem_of_nil in Hf|].
  cbn [map or_matches]. rewrite Hclause.
  apply elem_of_cons in Hf as [->|Hf].
  - rewrite Hs, (RegexFacts.search_dotted _ _ Hin).
    destruct (Htotal fields) as [b ->]. done.
  - rewrite (IH Hf). simpl. by rewrite orb_true_r.
Qed.

(** Other pattern characters can make the query select less: in an old URL
    with a query string the question mark makes the [t] before it optional
    and stands for no character itself, so a document holding that very URL
    is not selected, although [replace_url_in_dict] would rewrite it. *)
Example candidate_query_misses_question_mark :
  let old := "http://OLD/get?u=" in
  let doc : document := {["_id" := VInt 4; "minioUrl" := VStr "http://OLD/get?u=1"]} in
  candidate_query old ["minioUrl"]
  = Or [FieldRegex "minioUrl" "http:\/\/OLD\/get?u=" "i"]
  ∧ query_matches (candidate_query old ["minioUrl"]) doc = Some false
  ∧ replace_url_in_dict old "https://NEW/get?u=" doc ["minioUrl"]
    = ({["_id" := VInt 4; "minioUrl" := VStr "https://NEW/get?u=1"]}, true).
Proof. by_evaluation. Qed.

(** C3 fails on the code for the default old URL, whose dots are pattern
    characters that the query does not escape: the query selects the
    document [lookalike], and the in-memory store hands it out as the one
    candidate, although none of its target fields contains the old URL,
    whatever the case. *)
Theorem candidate_query_selects_lookalike :
  candidate_query (old_url init) (url_fields Groundtruth)
  = Or [FieldRegex "minioUrl" "http:\/\/155.248.254.206:9000" "i";
        FieldRegex "s3Url" "http:\/\/155.248.254.206:9000" "i";
        FieldRegex "minioUrlOracle" "http:\/\/155.248.254.206:9000" "i";
        FieldRegex "minioUrlThinker" "http:\/\/155.248.254.206:9000" "i"]
  ∧ query_matches (candidate_query (old_url init) (url_fields Groundtruth))
      Examples.lookalike = Some true
  ∧ yielded (find_candidates Groundtruth
               (Mem.connected (old_url init) (new_url init))
               (Mem.Mk [("imageUrl", Examples.lookalike)] 0 [] []))
    = [Examples.lookalike]
  ∧ existsb (fun f => match Examples.lookalike !! f with
                      | Some (VStr s) => PyStr.str_in_ci (old_url init) s
                      | _ => false
                      end) (url_fields Groundtruth) = false.
Proof. repeat split; vm_compute; reflexivity. Qed.

(** * Further properties

    What the code does beyond the claims above, method by method. *)

(** ** More on [replace_url_in_dict] *)

Section RewriteMore.

Variables (old new : string).

Lemma iter_rewritten_not_str n v :
  is_str v = false → Nat.iter n (rewritten old new) v = v.
Proof.
  intros Hv. induction n as [|n IH]; [done|].
  rewrite Nat.iter_succ, IH. by destruct v.
Qed.

Lemma iter_rewritten_str n s :
  ∃ s', Nat.iter n (rewritten old new) (VStr s) = VStr s'.
Proof.
  induction n as [|n [s' IH]]; [by eexists|].
  rewrite Nat.iter_succ, IH. unfold rewritten.
  destruct (eligible old (VStr s')); by eexists.
Qed.

(** The document of the loop does not depend on the flag it started with. *)
Lemma rewrite_loop_doc fields (data : document) modified :
  (fold_left (fun st field => replace_url_in_field old new field st)
             fields (data, modified)).1
  = (replace_url_in_dict old new data fields).1.
Proof.
  apply map_eq. intros k. unfold replace_url_in_dict.
  by rewrite !rewrite_loop_lookup.
Qed.

(** X1. [replace_url_in_dict] keeps the shape of the document: it neither
    adds nor removes a key; a value that is not a [str] (a number, a date,
    [None], an [ObjectId], ...) comes back as it is, listed or not; and a
    [str] stays a [str]. *)
Theorem replace_url_in_dict_keeps_keys (data : document) (fields : list string) :
  let result := (replace_url_in_dict old new data fields).1 in
  dom result =@{gset string} dom data
  ∧ (∀ k v, data !! k = Some v → is_str v = false → result !! k = Some v)
  ∧ (∀ k s, data !! k = Some (VStr s) → ∃ s', result !! k = Some (VStr s')).
Proof.
  intros result. subst result. unfold replace_url_in_dict. split; [|split].
  - apply set_eq. intros k. rewrite !elem_of_dom, rewrite_loop_lookup.
    apply fmap_is_Some.
  - intros k v Hk Hv. rewrite rewrite_loop_lookup, Hk. simpl.
    by rewrite iter_rewritten_not_str.
  - intros k s Hk. rewrite rewrite_loop_lookup, Hk. simpl.
    destruct (iter_rewritten_str (count_occ string_dec fields k) s) as [s' ->].
    by exists s'.
Qed.

(** X2. The flag covers every change: when [replace_url_in_dict] reports
    [False], the document it returns is the one it was given, so that
    skipping the [update_one] leaves nothing unwritten. *)
Theorem replace_url_in_dict_unmodified (data : document) (fields : list string) :
  (replace_url_in_dict old new data fields).2 = false →
  (replace_url_in_dict old new data fields).1 = data.
Proof.
  unfold replace_url_in_dict. rewrite rewrite_loop_flag. cbn [orb].
  intros Hnone. by rewrite rewrite_loop_id.
Qed.

(** X3. The order of the field list does not matter: two lists with the
    same fields, each as often, give the same document and the same
    flag. *)
Theorem replace_url_in_dict_permutation (data : document) (fields fields' : list string) :
  fields ≡ₚ fields' →
  replace_url_in_dict old new data fields = replace_url_in_dict old new data fields'.
Proof.
  intros Hperm. unfold replace_url_in_dict.
  apply injective_projections.
  - apply map_eq. intros k. rewrite !rewrite_loop_lookup.
    by rewrite (proj1 (Permutation_count_occ string_dec fields fields') Hperm k).
  - rewrite !rewrite_loop_flag. cbn [orb]. apply eq_true_iff_eq.
    rewrite !exists_eligible. by setoid_rewrite Hperm.
Qed.

(** X4. Rewriting over [fields1 ++ fields2] is rewriting over [fields1]
    and then, on the result, over [fields2]; the flag is the disjunction of
    the two flags. *)
Theorem replace_url_in_dict_app (data : document) (fields1 fields2 : list string) :
  replace_url_in_dict old new data (fields1 ++ fields2)
  = let '(data1, modified1) := replace_url_in_dict old new data fields1 in
    let '(data2, modified2) := replace_url_in_dict old new data1 fields2 in
    (data2, modified1 || modified2).
Proof.
  unfold replace_url_in_dict at 1. rewrite fold_left_app.
  fold (replace_url_in_dict old new data fields1).
  destruct (replace_url_in_dict old new data fields1) as [data1 modified1].
  pose proof (rewrite_loop_doc fields2 data1 modified1) as Hdoc.
  pose proof (rewrite_loop_flag old new fields2 data1 modified1) as Hflag.
  pose proof (rewrite_loop_flag old new fields2 data1 false) as Hflag'.
  fold (replace_url_in_dict old new data1 fields2) in Hflag'.
  destruct (replace_url_in_dict old new data1 fields2) as [data2 modified2].
  simpl in *. rewrite <- Hflag' in Hflag.
  apply injective_projections; simpl; congruence.
Qed.

End RewriteMore.

(** [s.replace(url, url)] is [s]. *)
Lemma interleave_nil s : PyStr.interleave "" s = s.
Proof. induction s as [|c s IH]; [done|]. simpl. by rewrite IH. Qed.

Lemma replace_same s url : PyStr.replace s url url = s.
Proof.
  destruct url as [|c url]; [apply interleave_nil|].
  destruct (PyStrFacts.replace_pieces s (String c url) (String c url)) as (ps & Hs & Hr & _);
    [done|]. congruence.
Qed.

Lemma rewritten_same url v : rewritten url url v = v.
Proof.
  destruct v; try done. unfold rewritten.
  destruct (eligible url _); [|done]. by rewrite replace_same.
Qed.

(** X5. With the new URL equal to the old one the rewrite leaves every
    document as it is, and still reports as modified any document with a
    listed non-empty string that contains the URL: the flag tells that the
    old URL was found, not that the document changed. *)
Theorem replace_url_in_dict_same_url url (data : document) (fields : list string) :
  (replace_url_in_dict url url data fields).1 = data
  ∧ ((replace_url_in_dict url url data fields).2 = true
     ↔ ∃ f s, f ∈ fields ∧ data !! f = Some (VStr s) ∧ s ≠ ""
              ∧ PyStr.str_in url s = true).
Proof.
  unfold replace_url_in_dict. split.
  - apply map_eq. intros k. rewrite rewrite_loop_lookup.
    destruct (data !! k) as [v|]; [|done]. simpl. f_equal.
    induction (count_occ string_dec fields k) as [|n IH]; [done|].
    by rewrite Nat.iter_succ, IH, rewritten_same.
  - rewrite rewrite_loop_flag. cbn [orb]. apply exists_eligible.
Qed.
(** ** Rewriting twice *)

Module Settle.
Import PyStr PyStrFacts.

(** Two ways to cut the same string share a middle part. *)
Lemma app_eq_app a b c d :
  a +:+ b = c +:+ d →
  ∃ e, (a = c +:+ e ∧ d = e +:+ b) ∨ (c = a +:+ e ∧ b = e +:+ d).
Proof.
  revert c. induction a as [|x a IH]; intros c Heq.
  - exists c. right. by rewrite app_nil_l in *.
  - destruct c as [|y c].
    + exists (String x a). left. by rewrite app_nil_l in *.
    + rewrite !app_cons in Heq. injection Heq as -> Heq.
      destruct (IH c Heq) as [e [[-> ->]|[-> ->]]]; exists e; [left|right];
        by rewrite ?app_cons.
Qed.

Lemma overlaps_spec a b :
  overlaps a b = true ↔ ∃ x z t, z ≠ "" ∧ a = x +:+ z ∧ b = z +:+ t.
Proof.
  induction a as [|c a IH]; cbn [overlaps].
  - split; [done|]. intros (x & z & t & Hz & Ha & _).
    destruct x; [by destruct z|done].
  - rewrite orb_true_iff, prefix_spec, IH. split.
    + intros [[t ->]|(x & z & t & Hz & -> & ->)].
      * by exists "", (String c a), t.
      * by exists (String c x), z, t.
    + intros ([|y x] & z & t & Hz & Ha & ->).
      * rewrite app_nil_l in Ha. subst z. left. by exists t.
      * rewrite app_cons in Ha. injection Ha as -> ->. right. by exists x, z, t.
Qed.

Lemma str_in_intro sub l r : str_in sub (l +:+ sub +:+ r) = true.
Proof. apply str_in_spec. by exists l, r. Qed.

Lemma str_in_start sub r : str_in sub (sub +:+ r) = true.
Proof. apply (str_in_intro sub "" r). Qed.

Lemma str_in_end sub l : str_in sub (l +:+ sub) = true.
Proof. apply str_in_spec. exists l, "". by rewrite app_nil_r. Qed.

Lemma separate_spec old new :
  separate old new = true →
  old ≠ "" ∧ str_in old new = false ∧ str_in new old = false
  ∧ overlaps new old = false ∧ overlaps old new = false.
Proof.
  unfold separate. rewrite !andb_true_iff, !negb_true_iff.
  intros [[[Hon Hno] ?] ?]. repeat split; try done.
  intros ->. by rewrite str_in_nil_l in Hon.
Qed.

(** No copy of [old] begins at or after the start of a copy of [new] that
    is followed by a string free of [old]. *)
Lemma no_copy_from_new old new e r rest :
  str_in old new = false → overlaps new old = false →
  str_in old rest = false → new +:+ rest ≠ e +:+ old +:+ r.
Proof.
  intros Hon Hno Hrest Heq.
  apply app_eq_app in Heq as [z [[Hnew Heq]|[_ Heq]]].
  - apply app_eq_app in Heq as [t [[Hold Hr]|[Hz _]]].
    + destruct z as [|c z].
      * rewrite app_nil_l in Hold. subst t rest.
        by rewrite str_in_start in Hrest.
      * assert (overlaps new old = true) as Ho
          by (apply overlaps_spec; by exists e, (String c z), t).
        congruence.
    + subst z new. by rewrite (str_in_intro old e t) in Hon.
  - subst rest. by rewrite (str_in_intro old z r) in Hrest.
Qed.

(** Joining pieces free of [old] with [new] makes no copy of [old]. *)
Lemma join_free old new pieces :
  separate old new = true →
  Forall (fun p => str_in old p = false) pieces →
  str_in old (join new pieces) = false.
Proof.
  intros (Hne & Hon & Hno & Hov & Hov')%separate_spec.
  induction pieces as [|p [|q ps] IH]; intros Hall.
  - by apply str_in_nil_r.
  - by apply Forall_cons in Hall as [? _].
  - apply Forall_cons in Hall as [Hp Hall]. specialize (IH Hall).
    rewrite join_cons.
    destruct (str_in old (p +:+ new +:+ join new (q :: ps))) eqn:Hin; [|done].
    exfalso.
    apply str_in_spec in Hin as (l & r & Heq).
    apply app_eq_app in Heq as [e [[Hpe Heq]|[_ Heq]]].
    + (* the copy begins inside [p] *)
      apply app_eq_app in Heq as [t [[Hold Heq]|[He _]]].
      * apply app_eq_app in Heq as [u [[Hnew _]|[Ht _]]].
        -- destruct t as [|c t].
           ++ rewrite app_nil_r in Hold. subst e p.
              by rewrite str_in_end in Hp.
           ++ assert (overlaps old new = true) as Ho
                by (apply overlaps_spec; by exists e, (String c t), u).
              congruence.
        -- subst t old. by rewrite (str_in_intro new e u) in Hno.
      * subst e p. by rewrite (str_in_intro old l t) in Hp.
    + exact (no_copy_from_new old new e r _ Hon Hov IH Heq).
Qed.

(** For URLs that keep apart, [s.replace(old, new)] holds no copy of
    [old]. *)
Lemma replace_free old new s :
  separate old new = true → str_in old (replace s old new) = false.
Proof.
  intros Hsep. pose proof (separate_spec _ _ Hsep) as (Hne & _).
  destruct (replace_pieces s old new Hne) as (ps & _ & -> & Hall).
  by apply join_free.
Qed.

(** When [new] contains [old], so does [s.replace(old, new)] for every
    [s] that contains [old]. *)
Lemma replace_keeps old new s :
  old ≠ "" → str_in old new = true → str_in old s = true →
  str_in old (replace s old new) = true.
Proof.
  intros Hne Hon Hin.
  destruct (replace_pieces s old new Hne) as (ps & Hs & -> & Hall).
  destruct ps as [|p [|q ps]].
  - subst s. by rewrite str_in_nil_r in Hin.
  - apply Forall_cons in Hall as [Hp _]. simpl in Hs. congruence.
  - rewrite join_cons. apply str_in_spec in Hon as (l & r & ->).
    apply str_in_spec. exists (p +:+ l), (r +:+ join (l +:+ old +:+ r) (q :: ps)).
    by rewrite !app_assoc.
Qed.

End Settle.
(** X6. For a pair of URLs that keep apart (neither contains the other,
    no end of one is a start of the other; the default pair is one), one
    rewrite is enough: what [replace_url_in_dict] returns holds no copy of
    the old URL in the listed fields, so that rewriting it again changes
    nothing and reports [False]. *)
Theorem replace_url_in_dict_settles old new (data : document) (fields : list string) :
  separate old new = true →
  let once := (replace_url_in_dict old new data fields).1 in
  replace_url_in_dict old new once fields = (once, false).
Proof.
  intros Hsep once. subst once.
  assert (∀ v, eligible old (rewritten old new v) = false) as Hfixed.
  { intros v. destruct (eligible old v) eqn:He.
    - destruct v as [| | |s| | |]; try done. unfold rewritten. rewrite He.
      cbn [eligible]. by rewrite Settle.replace_free, andb_false_r.
    - by rewrite rewritten_not_eligible. }
  apply rewrite_loop_id.
  destruct (existsb _ fields) eqn:Hex; [|done]. exfalso.
  apply existsb_exists in Hex as (f & Hf & He).
  unfold replace_url_in_dict in He. rewrite rewrite_loop_lookup in He.
  destruct (data !! f) as [v|]; [|done]. simpl in He.
  destruct (count_occ string_dec fields f) as [|n] eqn:Hn.
  - apply (count_occ_not_In string_dec) in Hn. done.
  - by rewrite Nat.iter_succ, Hfixed in He.
Qed.

(** The default pair of URLs and a ground-truth document with two stale
    URLs. *)
Lemma replace_url_in_dict_settles_witness :
  let once :=
    (replace_url_in_dict (old_url init) (new_url init)
       {["_id" := VInt 1;
         "minioUrl" := VStr "http://155.248.254.206:9000/x.png";
         "s3Url" := VStr "http://155.248.254.206:9000/y.png"]}
       (url_fields Groundtruth)).1 in
  replace_url_in_dict (old_url init) (new_url init) once (url_fields Groundtruth)
  = (once, false).
Proof. apply replace_url_in_dict_settles. by_evaluation. Defined.

(** X7. When the new URL contains the old one, the rewrite never settles:
    a document that was modified once is modified again by every further
    rewrite, each one putting the new URL in place of the copy of the old
    URL that the last one brought in. *)
Theorem replace_url_in_dict_never_settles old new (data : document)
    (fields : list string) :
  old ≠ "" → PyStr.str_in old new = true →
  (replace_url_in_dict old new data fields).2 = true →
  (replace_url_in_dict old new
     (replace_url_in_dict old new data fields).1 fields).2 = true.
Proof.
  intros Hne Hon. unfold replace_url_in_dict.
  assert (∀ v, eligible old v = true → eligible old (rewritten old new v) = true)
    as Hkeeps.
  { intros v He. pose proof He as (s & -> & Hs & Hin)%eligible_spec.
    unfold rewritten. rewrite He. apply (proj2 (eligible_spec old _)).
    exists (PyStr.replace s old new). split; [done|].
    pose proof (Settle.replace_keeps old new s Hne Hon Hin) as Hin'.
    split; [|done]. intros Hempty. rewrite Hempty in Hin'.
    by rewrite PyStrFacts.str_in_nil_r in Hin'. }
  rewrite !rewrite_loop_flag. cbn [orb]. rewrite !existsb_exists.
  intros (f & Hf & He). exists f. split; [done|].
  rewrite rewrite_loop_lookup.
  destruct (data !! f) as [v|]; [|done]. simpl in *.
  induction (count_occ string_dec fields f) as [|n IH]; [done|].
  rewrite Nat.iter_succ. by apply Hkeeps.
Qed.

(** A new URL that extends the old one. *)
Lemma replace_url_in_dict_never_settles_witness :
  (replace_url_in_dict "http://OLD" "http://OLD/v2"
     (replace_url_in_dict "http://OLD" "http://OLD/v2" Examples.coat
        (url_fields Groundtruth)).1 (url_fields Groundtruth)).2 = true.
Proof. apply replace_url_in_dict_never_settles; [done|by_evaluation..]. Defined.

(** The document grows with every rewrite. *)
Example rewrite_grows :
  let rewrite d := (replace_url_in_dict "http://OLD" "http://OLD/v2" d ["s3Url"]).1 in
  rewrite (rewrite Examples.coat) !! "s3Url" = Some (VStr "http://OLD/v2/v2/y.png").
Proof. by_evaluation. Qed.

(** ** The candidate query and the rewrite *)

(** Containment survives lower-casing. *)
Lemma prefix_lower p s :
  String.prefix p s = true →
  String.prefix (PyStr.lower_str p) (PyStr.lower_str s) = true.
Proof.
  revert s. induction p as [|a p IH]; intros s; [by destruct s|].
  destruct s as [|c s]; [done|]. cbn [PyStr.lower_str].
  rewrite !PyStrFacts.prefix_cons. intros [Ha Hp]%andb_true_iff.
  apply bool_decide_eq_true in Ha as ->.
  rewrite bool_decide_eq_true_2 by done. by apply IH.
Qed.

Lemma str_in_lower sub s :
  PyStr.str_in sub s = true → PyStr.str_in_ci sub s = true.
Proof.
  unfold PyStr.str_in_ci.
  induction s as [|c s IH]; cbn [PyStr.str_in PyStr.lower_str].
  - rewrite !orb_false_r. apply (prefix_lower sub "").
  - intros [Hp|Hin]%orb_true_iff.
    + apply prefix_lower in Hp. cbn [PyStr.lower_str] in Hp. by rewrite Hp.
    + rewrite (IH Hin). apply orb_true_r.
Qed.

(** X8. The candidate query misses no document that needs rewriting: for
    an old URL of plain characters and dots (the default among them), every
    document that [replace_url_in_dict] would modify over a list of fields
    is selected by the query built for that list. *)
Theorem candidate_query_selects_changed old new fields (doc : document) :
  Regex.dotted_str old = true →
  (replace_url_in_dict old new doc fields).2 = true →
  query_matches (candidate_query old fields) doc = Some true.
Proof.
  intros Hold Hch. unfold replace_url_in_dict in Hch.
  rewrite rewrite_loop_flag in Hch. cbn [orb] in Hch.
  apply exists_eligible in Hch as (f & str & Hf & Hdoc & _ & Hin).
  eapply candidate_query_covers; [done..|]. by apply str_in_lower.
Qed.

(** An upload with the default old URL. *)
Lemma candidate_query_selects_changed_witness :
  query_matches (candidate_query (old_url init) (url_fields UserClothes))
    {["_id" := VInt 7;
      "imageUrl" := VStr "http://155.248.254.206:9000/u.png"]}
  = Some true.
Proof.
  apply (candidate_query_selects_changed (old_url init) (new_url init));
    by_evaluation.
Defined.



(** ** A pass over one collection *)

Lemma errors_logged_cons e out :
  errors_logged (e :: out) = (if counts_error e then 1 else 0) + errors_logged out.
Proof.
  unfold errors_logged. rewrite filter_cons.
  destruct (counts_error e); [rewrite decide_True by done|rewrite decide_False by done];
    simpl; lia.
Qed.

Lemma errors_logged_app out1 out2 :
  errors_logged (out1 ++ out2) = errors_logged out1 + errors_logged out2.
Proof.
  induction out1 as [|e out1 IH]; [done|].
  rewrite <- app_comm_cons, !errors_logged_cons, IH. lia.
Qed.

Lemma errors_logged_none (P : event → bool) out :
  (∀ e, P e = true → counts_error e = false) →
  Forall (fun e => P e = true) out → errors_logged out = 0.
Proof.
  intros HP. induction 1 as [|e out He _ IH]; [done|].
  by rewrite errors_logged_cons, (HP e He), IH.
Qed.

Lemma is_document_event_pass k c e :
  is_document_event k c e = true → is_pass_event k c e = true.
Proof. unfold is_pass_event. by intros ->. Qed.

Lemma is_pass_event_target k c e :
  is_pass_event k c e = true → is_target_event e = true.
Proof. by destruct e as [[] []| | | | | | |]. Qed.

Lemma is_target_event_check e :
  is_target_event e = true → is_check_event e = true.
Proof. unfold is_check_event. by intros ->. Qed.

Lemma is_target_event_no_complete e gt uc :
  is_target_event e = true → e ≠ EvLog INFO (MCheckComplete gt uc).
Proof. by intros He ->. Qed.

Lemma is_document_event_no_error k c e :
  is_document_event k c e = true → counts_error e = false.
Proof. by destruct e as [[] []| | | | | | |]. Qed.

Lemma count_modified_nonneg out : 0 ≤ count_modified out.
Proof. unfold count_modified. lia. Qed.

Section PassMore.

Context {W : Type} `{World W}.

Lemma process_documents_events k collection documents :
  ∀ n s (w : W),
    Forall (fun e => is_document_event k (coll_name collection) e = true)
           (process_documents k collection documents n (s, w)).2.
Proof.
  induction documents as [| |doc rest IH]; intros n s w.
  - constructor.
  - repeat constructor. by apply bool_decide_eq_true_2.
  - rewrite process_documents_yield.
    destruct (doc !! "_id") as [doc_id|]; [|constructor].
    destruct (replace_url_in_dict _ _ _ _) as [modified_doc [|]]; [|apply IH].
    cbv zeta. destruct (update_one _ _ _ _) as [[c|e] w2].
    + specialize (IH (if 0 <? c then n + 1 else n) s w2).
      destruct (process_documents _ _ _ _ _) as [[r st] out]. simpl in *.
      constructor; [by apply bool_decide_eq_true_2|].
      apply Forall_app. split; [|done].
      destruct (0 <? c); repeat constructor. by apply bool_decide_eq_true_2.
    + repeat constructor. by apply bool_decide_eq_true_2.
Qed.

(** X10. A pass queries its collection once, first of all, with the
    candidate query. All it does afterwards is on that collection and about
    that target: [update_one] calls and a cursor failure on the collection,
    the records of updated documents, of the count and of the failure of
    the target. There is no second [find], no sleep, and no call on the
    other collection. *)
Theorem pass_queries_once k s (w : W) collection :
  target_collection k s = Some collection →
  ∃ out,
    (process_collection k (s, w)).2
    = EvFind (coll_name collection) (candidate_query (old_url s) (url_fields k)) :: out
    ∧ Forall (fun e => is_pass_event k (coll_name collection) e = true) out.
Proof.
  unfold target_collection. intros Hcoll.
  rewrite process_collection_eq, process_body_eq.
  destruct (db s) as [d|]; [|done].
  destruct (get_collection d _) as [c|]; [|done]. injection Hcoll as ->.
  cbv zeta. destruct (find _ _ _) as [documents w1].
  pose proof (process_documents_events k collection documents 0 s w1) as Hev.
  eapply Forall_impl in Hev; [|apply is_document_event_pass].
  destruct (process_documents _ _ _ _ _) as [[[n|e] [s2 w2]] out]; simpl in Hev.
  - eexists. split; [done|]. apply Forall_app. split; [done|].
    destruct (0 <? n); repeat constructor.
    unfold is_pass_event. simpl. by rewrite bool_decide_eq_true_2.
  - destruct e; simpl; eexists; (split; [done|]); try done.
    apply Forall_app. split; [done|]. repeat constructor.
    unfold is_pass_event. simpl. by rewrite bool_decide_eq_true_2.
Qed.

(** A pass as a whole: what it does to the service object, how its count
    and its error relate to what it emitted. [n] is what the counter of the
    target gains, [failed] what the error counter gains. *)
Lemma pass_run k s (w : W) :
  let '(r, (s', _), out) := process_collection k (s, w) in
  ∃ n failed : Z,
    s' = set_stats
           (Stats (groundtruth_updated (stats s)
                   + (if bool_decide (k = Groundtruth) then n else 0))
                  (user_clothes_updated (stats s)
                   + (if bool_decide (k = UserClothes) then n else 0))
                  (errors (stats s) + failed)
                  (last_check (stats s))) s
    ∧ 0 ≤ n ≤ count_modified out
    ∧ (failed = 0 ∨ failed = 1)
    ∧ failed = errors_logged out
    ∧ (failed = 0 → ∀ m, r = Ok m → n = count_modified out)
    ∧ r ≠ Raise PyMongoError
    ∧ Forall (fun e => is_target_event e = true) out.
Proof.
  assert (s = set_stats
                (Stats (groundtruth_updated (stats s)
                        + (if bool_decide (k = Groundtruth) then 0 else 0))
                       (user_clothes_updated (stats s)
                        + (if bool_decide (k = UserClothes) then 0 else 0))
                       (errors (stats s) + 0) (last_check (stats s))) s) as Hsame.
  { destruct s as [? ? ? ? ? ? ? ? ? [gt uc er lc]]. unfold set_stats. simpl.
    do 2 f_equal; repeat case_bool_decide; lia. }
  rewrite process_collection_eq, process_body_eq.
  destruct (db s) as [d|] eqn:Hdb.
  2:{ exists 0, 0. split; [done|]. split; [done|]. split; [by left|].
      split; [done|]. split; [done|]. split; [done|constructor]. }
  destruct (get_collection d _) as [collection|e] eqn:Hcoll.
  2:{ destruct e.
      - exists 0, 1. split.
        { destruct s as [? ? ? ? ? ? ? ? ? [gt uc er lc]]. unfold set_stats, add_error.
          simpl. do 2 f_equal; repeat case_bool_decide; lia. }
        split; [done|]. split; [by right|]. split; [done|].
        split; [lia|]. split; [done|]. by repeat constructor.
      - exists 0, 0. split; [done|]. split; [done|]. split; [by left|].
        split; [done|]. split; [done|]. split; [done|constructor].
      - exists 0, 0. split; [done|]. split; [done|]. split; [by left|].
        split; [done|]. split; [done|]. split; [done|constructor].
      - exists 0, 0. split; [done|]. split; [done|]. split; [by left|].
        split; [done|]. split; [done|]. split; [done|constructor]. }
  cbv zeta. destruct (find _ _ _) as [documents w1].
  pose proof (process_documents_run k collection documents 0 s w1) as Hrun.
  pose proof (process_documents_events k collection documents 0 s w1) as Hev.
  destruct (process_documents _ _ _ _ _) as [[r [s2 w2]] out]. simpl in Hev.
  destruct Hrun as (-> & _ & Hr).
  assert (errors_logged out = 0) as Hnoerr.
  { eapply errors_logged_none; [|done]. apply is_document_event_no_error. }
  assert (Forall (fun e => is_target_event e = true) out) as Hcheck.
  { eapply Forall_impl; [done|]. intros e He.
    eapply is_pass_event_target, is_document_event_pass, He. }
  pose proof (count_modified_nonneg out) as Hpos.
  destruct r as [n|e].
  - destruct Hr as (Hn & _ & _). rewrite Z.add_0_l in Hn. subst n.
    assert (count_modified
              (EvFind (coll_name collection)
                 (candidate_query (old_url s) (url_fields k))
               :: out ++ (if 0 <? count_modified out
                          then [EvLog INFO (MUpdatedCount k (count_modified out))]
                          else []))
            = count_modified out) as Hcount.
    { rewrite count_modified_cons, count_modified_app. cbn [reports_modified].
      destruct (0 <? _); [rewrite count_modified_cons|];
        change (count_modified []) with 0; simpl; lia. }
    exists (count_modified out), 0. rewrite Hcount. split.
    { destruct (0 <? count_modified out) eqn:Hn.
      - destruct k, s as [? ? ? ? ? ? ? ? ? [gt uc er lc]];
          unfold set_stats, add_updated, add_groundtruth_updated,
            add_user_clothes_updated; simpl; do 2 f_equal;
          repeat case_bool_decide; try done; lia.
      - assert (count_modified out = 0) as -> by lia. apply Hsame. }
    split; [lia|]. split; [by left|]. split.
    { rewrite errors_logged_cons, errors_logged_app, Hnoerr.
      destruct (0 <? _); [rewrite errors_logged_cons|];
        change (errors_logged []) with 0; simpl; lia. }
    split; [done|]. split; [done|].
    constructor; [done|]. apply Forall_app. split; [done|].
    destruct (0 <? _); by repeat constructor.
  - assert (e ≠ PyMongoError →
            ∃ n failed : Z,
              s = set_stats
                    (Stats (groundtruth_updated (stats s)
                            + (if bool_decide (k = Groundtruth) then n else 0))
                           (user_clothes_updated (stats s)
                            + (if bool_decide (k = UserClothes) then n else 0))
                           (errors (stats s) + failed) (last_check (stats s))) s
              ∧ 0 ≤ n ≤ count_modified
                          (EvFind (coll_name collection)
                             (candidate_query (old_url s) (url_fields k)) :: out)
              ∧ (failed = 0 ∨ failed = 1)
              ∧ failed = errors_logged
                           (EvFind (coll_name collection)
                              (candidate_query (old_url s) (url_fields k)) :: out)
              ∧ (failed = 0 → ∀ m : Z, Raise e = Ok m →
                 n = count_modified
                       (EvFind (coll_name collection)
                          (candidate_query (old_url s) (url_fields k)) :: out))
              ∧ Raise (A := Z) e ≠ Raise PyMongoError
              ∧ Forall (fun e => is_target_event e = true)
                  (EvFind (coll_name collection)
                     (candidate_query (old_url s) (url_fields k)) :: out)) as Hother.
    { intros He. exists 0, 0. split; [apply Hsame|].
      split; [split; [done|apply count_modified_nonneg]|]. split; [by left|].
      split; [by rewrite errors_logged_cons, Hnoerr|].
      split; [done|]. split; [congruence|by constructor]. }
    destruct e; try (by apply Hother).
    exists 0, 1. split.
    { destruct s as [? ? ? ? ? ? ? ? ? [gt uc er lc]]. unfold set_stats, add_error.
      simpl. do 2 f_equal; repeat case_bool_decide; lia. }
    split; [split; [done|apply count_modified_nonneg]|]. split; [by right|]. split.
    { rewrite errors_logged_app, errors_logged_cons, Hnoerr.
      change (errors_logged [EvLog ERROR (MProcessingError k)]) with 1. simpl. lia. }
    split; [lia|]. split; [done|].
    apply Forall_app. split; [by constructor|by repeat constructor].
Qed.

End PassMore.

(** ** A check cycle *)

Section CycleMore.

Context {W : Type} `{World W}.

(** One check cycle as a whole. *)
Lemma run_check_run s (w : W) :
  let '(r, (s', w'), out) := run_check (s, w) in
  s' = set_stats (stats s') s
  ∧ groundtruth_updated (stats s) ≤ groundtruth_updated (stats s')
  ∧ user_clothes_updated (stats s) ≤ user_clothes_updated (stats s')
  ∧ counted s s' ≤ count_modified out
  ∧ errors (stats s') = errors (stats s) + errors_logged out
  ∧ Forall (fun e => is_check_event e = true) out
  ∧ match r with
    | Ok _ =>
        (errors (stats s') = errors (stats s) → counted s s' = count_modified out)
        ∧ ∃ w2, last_check (stats s') = Some (utcnow w2).1 ∧ w' = (utcnow w2).2
    | Raise e =>
        e ≠ PyMongoError
        ∧ last_check (stats s') = last_check (stats s)
        ∧ Forall (fun e => is_target_event e = true) out
    end.
Proof.
  rewrite run_check_eq. unfold process_groundtruth_collection.
  pose proof (pass_run Groundtruth s w) as Hgt.
  destruct (process_collection Groundtruth (s, w)) as [[r1 [s1 w1]] out1].
  destruct Hgt as (n1 & f1 & Hs1 & Hn1 & Hf1 & He1 & Hexact1 & Hr1 & Hev1).
  rewrite (bool_decide_eq_true_2 (Groundtruth = Groundtruth)) in Hs1 by done.
  rewrite (bool_decide_eq_false_2 (Groundtruth = UserClothes)) in Hs1 by done.
  destruct r1 as [gt|e].
  2:{ subst s1. unfold counted. simpl. rewrite He1.
      split; [by destruct s|]. split; [lia|]. split; [lia|].
      split; [pose proof (count_modified_nonneg out1); lia|]. split; [lia|].
      split; [eapply Forall_impl; [done|]; apply is_target_event_check|].
      split; [congruence|by split]. }
  unfold process_user_clothes_collection.
  pose proof (pass_run UserClothes s1 w1) as Huc.
  destruct (process_collection UserClothes (s1, w1)) as [[r2 [s2 w2]] out2].
  destruct Huc as (n2 & f2 & Hs2 & Hn2 & Hf2 & He2 & Hexact2 & Hr2 & Hev2).
  rewrite (bool_decide_eq_true_2 (UserClothes = UserClothes)) in Hs2 by done.
  rewrite (bool_decide_eq_false_2 (UserClothes = Groundtruth)) in Hs2 by done.
  subst s1. simpl in Hs2.
  assert (Forall (fun e => is_target_event e = true) (out1 ++ out2)) as Hev
    by by apply Forall_app.
  destruct r2 as [uc|e].
  - destruct (utcnow w2) as [now w3] eqn:Hnow. subst s2. unfold counted. simpl.
    assert (∀ tail, (tail = [] ∨ tail = [EvLog INFO (MCheckComplete gt uc)]) →
                    count_modified (out1 ++ out2 ++ tail)
                    = count_modified out1 + count_modified out2
                    ∧ errors_logged (out1 ++ out2 ++ tail)
                      = errors_logged out1 + errors_logged out2
                    ∧ Forall (fun e => is_check_event e = true) (out1 ++ out2 ++ tail))
      as Htail.
    { intros tail Htail. rewrite !count_modified_app, !errors_logged_app.
      rewrite app_assoc.
      split; [|split]; [| |apply Forall_app; split;
                           [eapply Forall_impl; [done|]; apply is_target_event_check|]];
        destruct Htail as [->| ->]; try done;
        rewrite ?count_modified_cons, ?errors_logged_cons; simpl;
        change (count_modified []) with 0; change (errors_logged []) with 0;
        try lia; by repeat constructor. }
    destruct (Htail (if (0 <? gt) || (0 <? uc)
                     then [EvLog INFO (MCheckComplete gt uc)] else []))
      as (-> & -> & Hall); [destruct (_ || _); auto|].
    split; [by destruct s|]. split; [lia|]. split; [lia|]. split; [lia|].
    split; [lia|]. split; [done|]. split.
    + intros Herr. assert (f1 = 0 ∧ f2 = 0) as [Hz1 Hz2] by lia.
      rewrite (Hexact1 Hz1 gt eq_refl), (Hexact2 Hz2 uc eq_refl). lia.
    + exists w2. by rewrite Hnow.
  - subst s2. unfold counted. simpl. rewrite count_modified_app, errors_logged_app.
    split; [by destruct s|]. split; [lia|]. split; [lia|]. split; [lia|].
    split; [lia|]. split.
    { eapply Forall_impl; [done|]. apply is_target_event_check. }
    split; [congruence|by split].
Qed.

(** X11. The statistics never over-count. Over a check cycle, whether it
    returns or raises, neither counter of updated documents goes down, and
    the two together go up by at most the number of [update_one] calls that
    reported a modified document; when the cycle returns with the error
    counter unmoved, by exactly that number. *)
Theorem run_check_never_overcounts s (w : W) :
  let '(r, (s', _), out) := run_check (s, w) in
  groundtruth_updated (stats s) ≤ groundtruth_updated (stats s')
  ∧ user_clothes_updated (stats s) ≤ user_clothes_updated (stats s')
  ∧ counted s s' ≤ count_modified out
  ∧ (r = Ok tt → errors (stats s') = errors (stats s) →
     counted s s' = count_modified out).
Proof.
  pose proof (run_check_run s w) as Hrun.
  destruct (run_check (s, w)) as [[r [s' w']] out].
  destruct Hrun as (_ & Hgt & Huc & Hle & _ & _ & Hr).
  do 3 (split; [done|]). intros ->. by destruct Hr.
Qed.

(** X12. A [PyMongoError] never leaves a check cycle. When [run_check]
    returns, [last_check] holds the time read after both passes; when it
    raises, the exception is not a [PyMongoError], [last_check] keeps its
    value, and no record of a completed check is logged. *)
Theorem run_check_outcome s (w : W) :
  let '(r, (s', w'), out) := run_check (s, w) in
  match r with
  | Ok _ => ∃ w2, last_check (stats s') = Some (utcnow w2).1 ∧ w' = (utcnow w2).2
  | Raise e =>
      e ≠ PyMongoError
      ∧ last_check (stats s') = last_check (stats s)
      ∧ ∀ gt uc, EvLog INFO (MCheckComplete gt uc) ∉ out
  end.
Proof.
  pose proof (run_check_run s w) as Hrun.
  destruct (run_check (s, w)) as [[r [s' w']] out].
  destruct Hrun as (_ & _ & _ & _ & _ & _ & Hr).
  destruct r as [?|e]; [by destruct Hr|].
  destruct Hr as (? & ? & Hev). do 2 (split; [done|]).
  intros gt uc Hin. rewrite Forall_forall in Hev. by apply Hev in Hin.
Qed.

(** X13. Before [connect_db], [self.db] is [None]: a pass, and with it a
    check cycle, raises [TypeError] at once, which [except PyMongoError]
    does not catch. Nothing is emitted and nothing changes, the error
    counter included. *)
Theorem not_connected_raises_TypeError k s (w : W) :
  db s = None →
  process_collection k (s, w) = (Raise TypeError, (s, w), [])
  ∧ run_check (s, w) = (Raise TypeError, (s, w), []).
Proof.
  intros Hdb.
  assert (∀ k', process_collection k' (s, w) = (Raise TypeError, (s, w), [])) as Hpass.
  { intros k'. by rewrite process_collection_eq, process_body_eq, Hdb. }
  split; [apply Hpass|].
  rewrite run_check_eq. unfold process_groundtruth_collection. by rewrite Hpass.
Qed.

(** X14. Only a [PyMongoError] is kept inside a pass. When the
    ground-truth pass raises (a [KeyError] for a candidate without [_id],
    say), the check cycle ends there with that exception: the user clothes
    are not processed, and the service object is as it was before the
    cycle, whatever [update_one] calls the pass had made. *)
Theorem groundtruth_exception_ends_cycle s (w : W) e :
  (process_groundtruth_collection (s, w)).1.1 = Raise e →
  e ≠ PyMongoError
  ∧ (process_groundtruth_collection (s, w)).1.2.1 = s
  ∧ run_check (s, w)
    = (Raise e, (process_groundtruth_collection (s, w)).1.2,
       (process_groundtruth_collection (s, w)).2).
Proof.
  intros Hraise. rewrite run_check_eq.
  unfold process_groundtruth_collection in *.
  pose proof (process_collection_eq Groundtruth (s, w)) as Heq.
  pose proof (process_body_run Groundtruth s w) as Hrun.
  destruct (process_body Groundtruth (s, w)) as [[rb [sb wb]] outb].
  destruct (process_collection Groundtruth (s, w)) as [[r [s1 w1]] out1].
  simpl in Hraise. subst r.
  assert (rb = Raise e ∧ e ≠ PyMongoError ∧ s1 = sb) as (-> & He & ->).
  { destruct rb as [n|[]]; inversion Heq; by subst. }
  split; [done|]. split; [|done]. simpl.
  destruct (target_collection Groundtruth s); [by destruct Hrun as (_ & -> & _)|].
  by destruct Hrun as (_ & -> & _).
Qed.

End CycleMore.

(** A service object fresh from [__init__]. *)
Lemma not_connected_raises_TypeError_witness :
  process_collection UserClothes (init, Examples.store [])
  = (Raise TypeError, (init, Examples.store []), [])
  ∧ run_check (init, Examples.store []) = (Raise TypeError, (init, Examples.store []), []).
Proof. by apply (not_connected_raises_TypeError (W := Mem.mem)). Defined.

(** A ground-truth candidate without [_id]. *)
Lemma groundtruth_exception_ends_cycle_witness :
  let st := (Examples.service,
             Mem.Mk [("imageUrl", {["minioUrl" := VStr "http://OLD/x.png"]});
                     ("userUploadedClothes", Examples.upload)] 100 [] []) in
  KeyError ≠ PyMongoError
  ∧ (process_groundtruth_collection st).1.2.1 = Examples.service
  ∧ run_check st
    = (Raise KeyError, (process_groundtruth_collection st).1.2,
       (process_groundtruth_collection st).2).
Proof.
  intros st. apply (groundtruth_exception_ends_cycle (W := Mem.mem)). by_evaluation.
Defined.

(** ** The polling loop *)

Section LoopMore.

Context {W : Type} `{World W}.

Lemma do_sleep_eq s (w : W) :
  do_sleep (s, w)
  = match sleep (poll_interval s) w with
    | (Ok _, w') => (Ok tt, (s, w'), [EvSleep (poll_interval s) (Ok tt)])
    | (Raise e, w') => (Raise e, (s, w'), [EvSleep (poll_interval s) (Raise e)])
    end.
Proof.
  unfold do_sleep. rewrite bind_get_self. unfold call. simpl.
  by destruct (sleep _ w) as [[[]|e] w'].
Qed.

(** The handler, as the monad runs it. *)
Lemma cycle_failed_eq (rest : M (W := W) progress) e s (w : W) out0 :
  (let '(r, st, out) :=
     (if is_Exception e
      then log ERROR MCycleError ;; modify_stats add_error ;; do_sleep ;; rest
      else raise e) (s, w) in
   (r, st, out0 ++ out))
  = cycle_failed rest e (s, w) out0.
Proof.
  unfold cycle_failed. destruct (is_Exception e); [|unfold raise; by rewrite app_nil_r].
  rewrite bind_log. unfold modify_stats. rewrite bind_modify_self.
  unfold bind. rewrite do_sleep_eq. cbn [fst snd].
  destruct (sleep _ w) as [[[]|e'] w']; [|done].
  by destruct (rest _) as [[r st] out].
Qed.

(** A check and the sleep after it. *)
Lemma check_then_sleep s (w : W) :
  (run_check ;; do_sleep) (s, w)
  = let '(r1, (s1, w1), out1) := run_check (s, w) in
    match r1 with
    | Ok _ =>
        match sleep (poll_interval s1) w1 with
        | (Ok _, w2) => (Ok tt, (s1, w2), out1 ++ [EvSleep (poll_interval s1) (Ok tt)])
        | (Raise e, w2) =>
            (Raise e, (s1, w2), out1 ++ [EvSleep (poll_interval s1) (Raise e)])
        end
    | Raise e => (Raise e, (s1, w1), out1)
    end.
Proof.
  unfold bind. destruct (run_check (s, w)) as [[[[]|e] [s1 w1]] out1]; [|done].
  rewrite do_sleep_eq. by destruct (sleep _ w1) as [[[]|e] w2].
Qed.

(** One turn of the [while True] loop. *)
Lemma poll_S fuel s (w : W) :
  poll (S fuel) (s, w)
  = let '(r1, (s1, w1), out1) := run_check (s, w) in
    match r1 with
    | Ok _ =>
        match sleep (poll_interval s1) w1 with
        | (Ok _, w2) =>
            let '(r, st, out) := poll fuel (s1, w2) in
            (r, st, out1 ++ EvSleep (poll_interval s1) (Ok tt) :: out)
        | (Raise e, w2) =>
            cycle_failed (poll fuel) e (s1, w2)
              (out1 ++ [EvSleep (poll_interval s1) (Raise e)])
        end
    | Raise e => cycle_failed (poll fuel) e (s1, w1) out1
    end.
Proof.
  cbn [poll]. rewrite bind_attempt, check_then_sleep.
  destruct (run_check (s, w)) as [[[[]|e] [s1 w1]] out1].
  - destruct (sleep _ w1) as [[[]|e] w2].
    + destruct (poll fuel (s1, w2)) as [[r st] out]. by rewrite <- app_assoc.
    + apply cycle_failed_eq.
  - apply cycle_failed_eq.
Qed.

End LoopMore.

Lemma sleeps_app out1 out2 : sleeps (out1 ++ out2) = sleeps out1 ++ sleeps out2.
Proof. apply filter_app. Qed.

Lemma sleeps_none (P : event → bool) out :
  (∀ e, P e = true → is_sleep e = false) →
  Forall (fun e => P e = true) out → sleeps out = [].
Proof.
  intros HP. induction 1 as [|e out He _ IH]; [done|].
  unfold sleeps in *. rewrite filter_cons, decide_False; [done|].
  by rewrite (HP e He).
Qed.

Lemma is_check_event_loop interval e :
  is_check_event e = true → is_loop_event interval e = true.
Proof. unfold is_loop_event. by intros ->. Qed.

Lemma is_check_event_no_sleep e : is_check_event e = true → is_sleep e = false.
Proof. by destruct e as [[] []| | | | | | |]. Qed.

Section LoopFacts.

Context {W : Type} `{World W}.

Lemma turn_pre_refl s : turn_pre s s [] 0.
Proof.
  unfold turn_pre, counted.
  change (count_modified []) with 0. change (errors_logged []) with 0.
  split; [by destruct s|]. repeat split; try lia; constructor.
Qed.

Lemma turn_pre_check s (w : W) :
  turn_pre s (run_check (s, w)).1.2.1 (run_check (s, w)).2 0.
Proof.
  pose proof (run_check_run s w) as Hrun.
  destruct (run_check (s, w)) as [[r [s' w']] out].
  destruct Hrun as (Hs & Hgt & Huc & Hle & Herr & Hev & _). simpl.
  repeat split; try done.
  - eapply Forall_impl; [done|]. intros e. apply is_check_event_loop.
  - erewrite sleeps_none; [done| |done]. apply is_check_event_no_sleep.
Qed.

Lemma turn_pre_interval s s1 out n :
  turn_pre s s1 out n → poll_interval s1 = poll_interval s.
Proof. intros (-> & _). done. Qed.

Lemma turn_pre_client s s1 out n : turn_pre s s1 out n → client s1 = client s.
Proof. intros (-> & _). done. Qed.

Lemma turn_pre_sleep s s1 out n a :
  turn_pre s s1 out n →
  turn_pre s s1 (out ++ [EvSleep (poll_interval s1) a]) (S n).
Proof.
  intros Hpre. pose proof (turn_pre_interval _ _ _ _ Hpre) as Hint.
  destruct Hpre as (Hs & Hgt & Huc & Hle & Herr & Hev & Hn).
  unfold turn_pre. rewrite count_modified_app, errors_logged_app, sleeps_app.
  rewrite length_app, Hn.
  change (count_modified [_]) with 0. change (errors_logged [_]) with 0.
  repeat split; try done; try lia.
  - apply Forall_app. split; [done|]. repeat constructor.
    unfold is_loop_event. simpl. rewrite bool_decide_eq_true_2; done.
  - simpl. lia.
Qed.

Lemma turn_pre_error s s1 out n :
  turn_pre s s1 out n →
  turn_pre s (set_stats (add_error (stats s1)) s1) (out ++ [EvLog ERROR MCycleError]) n.
Proof.
  intros (Hs & Hgt & Huc & Hle & Herr & Hev & Hn).
  unfold turn_pre, counted in *.
  rewrite count_modified_app, errors_logged_app, sleeps_app, length_app, Hn.
  change (count_modified [_]) with 0. change (errors_logged [_]) with 1.
  simpl. repeat split; try done; try lia.
  - rewrite Hs. by destruct s.
  - apply Forall_app. split; [done|]. by repeat constructor.
Qed.

(** A turn that went on: the rest of the loop after it. *)
Lemma poll_post_turn fuel s s1 out0 n r s' out :
  turn_pre s s1 out0 n → (1 ≤ n ≤ 2)%nat →
  poll_post fuel s1 r s' out →
  poll_post (S fuel) s r s' (out0 ++ out).
Proof.
  intros Hpre Hn [(m & Hrest & Hm & Hfuel) Hr].
  pose proof (turn_pre_interval _ _ _ _ Hpre) as Hint.
  destruct Hpre as (Hs1 & Hgt1 & Huc1 & Hle1 & Herr1 & Hev1 & Hn1).
  destruct Hrest as (Hs & Hgt & Huc & Hle & Herr & Hev & Hm1).
  split.
  - exists (n + m)%nat. split; [|split; [lia|]].
    + unfold turn_pre, counted in *.
      rewrite count_modified_app, errors_logged_app, sleeps_app, length_app.
      repeat split; try lia.
      * rewrite Hs, Hs1. by destruct s.
      * apply Forall_app. split; [done|]. by rewrite <- Hint.
    + intros p Hp. specialize (Hfuel p Hp). lia.
  - destruct r as [p|e]; [done|]. destruct Hr as [->|[pre ->]]; [by left|].
    right. exists (out0 ++ pre). by rewrite Hint, app_assoc.
Qed.

(** A turn at which the loop was left by [e]. *)
Lemma poll_post_left fuel s s1 out0 n e :
  turn_pre s s1 out0 n → (n ≤ 2)%nat →
  (e = KeyboardInterrupt
   ∨ ∃ pre, out0 = pre ++ [EvLog ERROR MCycleError;
                           EvSleep (poll_interval s) (Raise e)]) →
  poll_post (S fuel) s (Raise e) s1 out0.
Proof.
  intros Hpre Hn He. split; [|done].
  exists n. split; [done|]. split; [lia|done].
Qed.

(** The handler, given what holds of the loop from the next turn on. *)
Lemma cycle_failed_post fuel s s1 (w1 : W) out0 n e :
  (∀ s0 w0, let '(r, (s', _), out) := poll fuel (s0, w0) in
            poll_post fuel s0 r s' out) →
  turn_pre s s1 out0 n → (n ≤ 1)%nat →
  let '(r, (s', _), out) := cycle_failed (poll fuel) e (s1, w1) out0 in
  poll_post (S fuel) s r s' out.
Proof.
  intros IH Hpre Hn. unfold cycle_failed. cbn [fst snd].
  destruct (is_Exception e) eqn:He.
  2:{ eapply poll_post_left; [done|lia|]. left. by destruct e. }
  apply turn_pre_error in Hpre.
  set (s2 := set_stats (add_error (stats s1)) s1) in *.
  destruct (sleep (poll_interval s2) w1) as [[[]|e'] w2].
  - specialize (IH s2 w2). destruct (poll fuel (s2, w2)) as [[r [s' w']] out].
    apply (turn_pre_sleep _ _ _ _ (Ok tt)) in Hpre.
    rewrite <- app_assoc in Hpre. simpl in Hpre.
    replace (out0 ++ EvLog ERROR MCycleError :: EvSleep (poll_interval s2) (Ok ()) :: out)
      with ((out0 ++ [EvLog ERROR MCycleError; EvSleep (poll_interval s2) (Ok ())]) ++ out)
      by (by rewrite <- app_assoc).
    eapply poll_post_turn; [done|lia|done].
  - pose proof (turn_pre_interval _ _ _ _ Hpre) as Hint.
    apply (turn_pre_sleep _ _ _ _ (Raise e')) in Hpre.
    rewrite <- app_assoc in Hpre. simpl in Hpre.
    eapply poll_post_left; [done|lia|]. right. exists out0. by rewrite Hint.
Qed.

(** The loop as a whole. *)
Lemma poll_run fuel :
  ∀ s (w : W),
    let '(r, (s', _), out) := poll fuel (s, w) in poll_post fuel s r s' out.
Proof.
  induction fuel as [|fuel IH]; intros s w.
  - simpl. split; [|done]. exists 0%nat. split; [apply turn_pre_refl|].
    split; [lia|done].
  - rewrite poll_S. pose proof (turn_pre_check s w) as Hpre.
    destruct (run_check (s, w)) as [[[[]|e] [s1 w1]] out1]; simpl in Hpre.
    + destruct (sleep (poll_interval s1) w1) as [[[]|e] w2].
      * specialize (IH s1 w2). destruct (poll fuel (s1, w2)) as [[r [s' w']] out].
        apply (turn_pre_sleep _ _ _ _ (Ok tt)) in Hpre.
        replace (out1 ++ EvSleep (poll_interval s1) (Ok ()) :: out)
          with ((out1 ++ [EvSleep (poll_interval s1) (Ok ())]) ++ out)
          by (by rewrite <- app_assoc).
        eapply poll_post_turn; [done|lia|done].
      * apply (turn_pre_sleep _ _ _ _ (Raise e)) in Hpre.
        by eapply cycle_failed_post.
    + eapply cycle_failed_post; [done|done|lia].
Qed.

End LoopFacts.

(** ** [connect_db], [run] and its [finally] *)

Lemma is_loop_event_running interval e :
  is_loop_event interval e = true → is_running_event interval e = true.
Proof. unfold is_running_event. intros ->. apply orb_true_r. Qed.

Lemma is_connect_event_running interval e :
  is_connect_event e = true → is_running_event interval e = true.
Proof. unfold is_running_event. by intros ->. Qed.

Lemma is_start_record_running interval e :
  is_start_record e = true → is_running_event interval e = true.
Proof. unfold is_running_event. intros ->. by rewrite orb_true_r. Qed.

(** What the events of a running service are not, and what they count
    for. *)
Lemma is_running_event_spec interval e :
  is_running_event interval e = true →
  e ≠ EvClose ∧ is_stats_record e = false ∧ e ≠ EvLog INFO MShuttingDown
  ∧ (∀ n a, e = EvSleep n a → n = interval).
Proof.
  intros He. repeat split; try (by intros ->).
  - by destruct e as [[] []| | | | | | |].
  - intros n a ->. unfold is_running_event, is_loop_event in He. simpl in He.
    by apply bool_decide_eq_true in He.
Qed.

Lemma is_connect_event_quiet e :
  is_connect_event e = true →
  counts_error e = false ∧ is_sleep e = false ∧ reports_modified e = false.
Proof. by destruct e as [[] []| | | | | | |]. Qed.

Lemma is_start_record_quiet e :
  is_start_record e = true →
  counts_error e = false ∧ is_sleep e = false ∧ reports_modified e = false.
Proof. by destruct e as [[] []| | | | | | |]. Qed.

Lemma count_modified_none (P : event → bool) out :
  (∀ e, P e = true → reports_modified e = false) →
  Forall (fun e => P e = true) out → count_modified out = 0.
Proof.
  intros HP. induction 1 as [|e out He _ IH]; [done|].
  by rewrite count_modified_cons, (HP e He), IH.
Qed.

Section RunMore.

Context {W : Type} `{World W}.

Lemma print_stats_eq s (w : W) :
  print_stats (s, w) = (Ok tt, (s, w), summary (stats s)).
Proof. done. Qed.

Lemma run_finally_eq s (w : W) :
  run_finally (s, w)
  = match client s with
    | Some c => (Ok tt, (s, close c w), closing)
    | None => (Ok tt, (s, w), [])
    end.
Proof. unfold run_finally. rewrite bind_get_self. cbn [fst]. by destruct (client s). Qed.

Lemma connect_db_events s (w : W) :
  Forall (fun e => is_connect_event e = true) (connect_db (s, w)).2.
Proof.
  rewrite connect_db_eq. cbv zeta.
  destruct (new_client _ _) as [[c|e] w1]; [|destruct e; by repeat constructor].
  destruct (get_database c _) as [d|e]; [|destruct e; by repeat constructor].
  destruct (ping c w1) as [[[]|e] w2]; [|destruct e]; by repeat constructor.
Qed.

(** A successful [connect_db] has set both handles. *)
Lemma connect_db_true s (w : W) :
  (connect_db (s, w)).1.1 = Ok true →
  ∃ c d w1, (new_client (mongo_uri s) w).1 = Ok c
            ∧ (connect_db (s, w)).1.2 = (set_db d (set_client c s), w1).
Proof.
  rewrite connect_db_eq. cbv zeta.
  destruct (new_client _ _) as [[c|e] w1]; [|by destruct e].
  destruct (get_database c _) as [d|e]; [|by destruct e].
  destruct (ping c w1) as [[[]|e] w2]; [|by destruct e].
  intros _. by exists c, d, w2.
Qed.

(** X15. How [connect_db] ends. It returns [True] only when the client,
    the database and the ping all answered: both handles are then set and
    the four records of the configuration are logged. It returns [False]
    when a call raised [PyMongoError]: the failure is the one record
    logged, after the calls made. Any other exception goes through, with
    nothing logged. In both failures the handles assigned before the
    failing call stay assigned, and nothing else of the service object
    changes. *)
Theorem connect_db_outcome s (w : W) :
  let '(r, (s', _), out) := connect_db (s, w) in
  let handles_kept :=
    s' = s ∨ (∃ c, s' = set_client c s) ∨ (∃ c d, s' = set_db d (set_client c s)) in
  match r with
  | Ok true =>
      ∃ c d, (new_client (mongo_uri s) w).1 = Ok c
             ∧ get_database c (db_name s) = Ok d
             ∧ s' = set_db d (set_client c s)
             ∧ out = [EvNewClient (mongo_uri s) (Ok c); EvPing (Ok tt);
                      EvLog INFO (MConnected (mongo_uri s));
                      EvLog INFO (MDatabase (db_name s));
                      EvLog INFO (MOldUrl (old_url s));
                      EvLog INFO (MNewUrl (new_url s))]
  | Ok false =>
      (∃ calls, out = calls ++ [EvLog ERROR MConnectFailed]
                ∧ Forall (fun e => ∀ lvl m, e ≠ EvLog lvl m) calls)
      ∧ handles_kept
  | Raise e =>
      e ≠ PyMongoError
      ∧ Forall (fun e => ∀ lvl m, e ≠ EvLog lvl m) out
      ∧ handles_kept
  end.
Proof.
  rewrite connect_db_eq. cbv zeta.
  destruct (new_client _ _) as [[c|e] w1] eqn:Hc.
  2:{ destruct e; simpl;
        try (split; [done|]; split; [by repeat constructor|by left]).
      split; [|by left]. eexists [_]. split; [done|by repeat constructor]. }
  destruct (get_database c _) as [d|e] eqn:Hd.
  2:{ destruct e; simpl;
        try (split; [done|]; split; [by repeat constructor|right; left; by exists c]).
      split; [|right; left; by exists c].
      eexists [_]. split; [done|by repeat constructor]. }
  destruct (ping c w1) as [[[]|e] w2].
  - by exists c, d.
  - destruct e; simpl;
      try (split; [done|]; split; [by repeat constructor|right; right; by exists c, d]).
    split; [|right; right; by exists c, d].
    eexists [_; _]. split; [done|by repeat constructor].
Qed.

(** [run], by the outcome of [connect_db] and of the loop. *)
Lemma run_eq fuel s (w : W) :
  run fuel (s, w)
  = let '(rc, (s1, w1), outc) := connect_db (s, w) in
    match rc with
    | Raise e => (Raise e, (s1, w1), EvLog INFO MStarting :: outc)
    | Ok false =>
        (Ok Returned, (s1, w1),
         EvLog INFO MStarting :: outc ++ [EvLog ERROR MExiting])
    | Ok true =>
        let '(r, st2, outp) := poll fuel (s1, w1) in
        run_end r st2
          (EvLog INFO MStarting
           :: outc ++ EvLog INFO (MPollingInterval (poll_interval s1))
           :: EvLog INFO MRunning :: outp)
    end.
Proof.
  unfold run. rewrite bind_log. unfold bind at 1.
  destruct (connect_db (s, w)) as [[[[|]|e] [s1 w1]] outc]; [| |done].
  - cbn [negb]. rewrite bind_get_self. cbn [fst]. rewrite !bind_log, bind_attempt.
    rewrite try_except_eq.
    destruct (poll fuel (s1, w1)) as [[[[|]|e] [s2 w2]] outp]; unfold run_end; cbn [fst snd].
    + unfold bind. rewrite run_finally_eq.
      destruct (client s2); simpl; rewrite ?app_nil_r, <- ?app_assoc; by simpl.
    + simpl. by rewrite app_nil_r.
    + destruct e; simpl; unfold bind; rewrite run_finally_eq;
        destruct (client s2); simpl; rewrite ?app_nil_r, <- ?app_assoc; by simpl.
  - cbn [negb]. by rewrite bind_log.
Qed.

End RunMore.

Section RunFacts.

Context {W : Type} `{World W}.

(** The events up to the end of the loop, measured: those of [connect_db]
    and the records of the start count for nothing. *)
Lemma run_prefix_measures interval outc outp (a b : event) :
  Forall (fun e => is_connect_event e = true) outc →
  is_start_record a = true → is_start_record b = true →
  Forall (fun e => is_loop_event interval e = true) outp →
  let pre := EvLog INFO MStarting :: outc ++ a :: b :: outp in
  errors_logged pre = errors_logged outp
  ∧ count_modified pre = count_modified outp
  ∧ sleeps pre = sleeps outp
  ∧ Forall (fun e => is_running_event interval e = true) pre.
Proof.
  intros Hc Ha Hb Hp pre. subst pre.
  destruct (is_start_record_quiet a Ha) as (Ha1 & Ha2 & Ha3).
  destruct (is_start_record_quiet b Hb) as (Hb1 & Hb2 & Hb3).
  rewrite errors_logged_cons, errors_logged_app, !errors_logged_cons.
  rewrite count_modified_cons, count_modified_app, !count_modified_cons.
  rewrite Ha1, Hb1, Ha3, Hb3.
  rewrite (errors_logged_none is_connect_event outc)
    by (done || intros e He; by apply is_connect_event_quiet in He as (? & _)).
  rewrite (count_modified_none is_connect_event outc)
    by (done || intros e He; by apply is_connect_event_quiet in He as (_ & _ & ?)).
  split; [simpl; lia|]. split; [simpl; lia|]. split.
  - change (EvLog INFO MStarting :: outc ++ a :: b :: outp)
      with ([EvLog INFO MStarting] ++ outc ++ [a; b] ++ outp).
    rewrite !sleeps_app.
    rewrite (sleeps_none is_connect_event outc)
      by (done || intros e He; by apply is_connect_event_quiet in He as (_ & ? & _)).
    unfold sleeps at 1 2. rewrite !filter_cons, filter_nil.
    rewrite Ha2, Hb2. by rewrite !decide_False by done.
  - constructor; [done|]. apply Forall_app. split.
    + eapply Forall_impl; [done|]. intros e. apply is_connect_event_running.
    + constructor; [by apply is_start_record_running|].
      constructor; [by apply is_start_record_running|].
      eapply Forall_impl; [done|]. intros e. apply is_loop_event_running.
Qed.

(** [run] once [connect_db] has succeeded: the loop runs on the service
    object with the handles set, and [run_end] ends it. *)
Lemma run_connected fuel s (w : W) :
  (connect_db (s, w)).1.1 = Ok true →
  ∃ c d w1 r s2 w2 outp,
    (new_client (mongo_uri s) w).1 = Ok c
    ∧ (connect_db (s, w)).1.2 = (set_db d (set_client c s), w1)
    ∧ poll fuel (set_db d (set_client c s), w1) = (r, (s2, w2), outp)
    ∧ poll_post fuel (set_db d (set_client c s)) r s2 outp
    ∧ client s2 = Some c
    ∧ run fuel (s, w)
      = run_end r (s2, w2)
          (EvLog INFO MStarting
           :: (connect_db (s, w)).2 ++ EvLog INFO (MPollingInterval (poll_interval s))
           :: EvLog INFO MRunning :: outp).
Proof.
  intros Hok. rewrite run_eq.
  destruct (connect_db_true s w Hok) as (c & d & w1 & Hc & Hst).
  destruct (connect_db (s, w)) as [[rc [s1 w1']] outc]. simpl in Hok, Hst.
  injection Hst as -> ->. subst rc.
  pose proof (poll_run fuel (set_db d (set_client c s)) w1) as Hpoll.
  destruct (poll fuel _) as [[r [s2 w2]] outp] eqn:Heq.
  exists c, d, w1, r, s2, w2, outp. do 4 (split; [done|]). split; [|done].
  destruct Hpoll as [(n & Hpre & _) _]. by rewrite (turn_pre_client _ _ _ _ Hpre).
Qed.

End RunFacts.

Section RunTheorems.

Context {W : Type} `{World W}.

(** X16. The loop is left only by an exception, and only by
    [KeyboardInterrupt] or by what the [time.sleep] of the
    [except Exception] clause raises: no other exception of a check cycle,
    or of the sleep after it, ends the loop. *)
Theorem loop_left_only_by_interrupt fuel s (w : W) :
  match (poll fuel (s, w)).1.1 with
  | Ok p => p = StillPolling
  | Raise e =>
      e = KeyboardInterrupt
      ∨ ∃ pre, (poll fuel (s, w)).2
               = pre ++ [EvLog ERROR MCycleError;
                         EvSleep (poll_interval s) (Raise e)]
  end.
Proof.
  pose proof (poll_run fuel s w) as Hpoll.
  destruct (poll fuel (s, w)) as [[r [s' w']] out]. by destruct Hpoll as [_ Hr].
Qed.

(** X17. Once connected, [run] closes the client when it leaves its loop,
    and only then. On [KeyboardInterrupt] it logs the shutdown, then the
    summary of the statistics as they are at the end, closes the client
    that [connect_db] made, and returns. On another exception it closes
    that client and lets the exception go on, without a summary. Before
    that, nothing is closed and no record of the summary is logged; while
    the model is still polling, nothing has been closed. *)
Theorem run_closes_client s (w : W) fuel :
  (connect_db (s, w)).1.1 = Ok true →
  let '(r, (s', w'), out) := run fuel (s, w) in
  match r with
  | Ok StillPolling => EvClose ∉ out
  | Ok Returned =>
      ∃ pre c w2,
        out = pre ++ EvLog INFO MShuttingDown :: summary (stats s') ++ closing
        ∧ Forall (fun e => e ≠ EvClose ∧ is_stats_record e = false
                           ∧ e ≠ EvLog INFO MShuttingDown) pre
        ∧ (new_client (mongo_uri s) w).1 = Ok c
        ∧ client s' = Some c ∧ w' = close c w2
  | Raise e =>
      e ≠ KeyboardInterrupt
      ∧ ∃ pre c w2,
          out = pre ++ closing
          ∧ Forall (fun e => e ≠ EvClose ∧ is_stats_record e = false
                             ∧ e ≠ EvLog INFO MShuttingDown) pre
          ∧ (new_client (mongo_uri s) w).1 = Ok c
          ∧ client s' = Some c ∧ w' = close c w2
  end.
Proof.
  intros Hok.
  destruct (run_connected fuel s w Hok)
    as (c & d & w1 & r & s2 & w2 & outp & Hc & _ & _ & Hpost & Hclient & ->).
  destruct Hpost as [(n & Hpre & _) Hr].
  destruct Hpre as (_ & _ & _ & _ & _ & Hloop & _).
  destruct (run_prefix_measures (poll_interval s) (connect_db (s, w)).2 outp
              (EvLog INFO (MPollingInterval (poll_interval s))) (EvLog INFO MRunning)
              (connect_db_events s w) eq_refl eq_refl Hloop) as (_ & _ & _ & Hrun).
  cbv zeta in Hrun.
  assert (Forall (fun e => e ≠ EvClose ∧ is_stats_record e = false
                           ∧ e ≠ EvLog INFO MShuttingDown)
            (EvLog INFO MStarting
             :: (connect_db (s, w)).2 ++ EvLog INFO (MPollingInterval (poll_interval s))
             :: EvLog INFO MRunning :: outp)) as Hpre.
  { eapply Forall_impl; [done|]. intros e He.
    by destruct (is_running_event_spec _ _ He) as (? & ? & ? & _). }
  unfold run_end. cbn [fst snd]. rewrite Hclient.
  destruct r as [p|e].
  - subst p. intros Hin. rewrite Forall_forall in Hpre. by destruct (Hpre _ Hin).
  - destruct e; cbn [fst snd].
    1-3: split; [done|]; by eexists _, c, w2.
    by eexists _, c, w2.
Qed.

(** X18. The statistics agree with the log over a whole [run]. The error
    counter goes up by the number of records of a failed pass or of a
    failed cycle (a failed [connect_db] is logged, not counted). Neither
    counter of updated documents goes down, and together they go up by at
    most the number of [update_one] calls that reported a modified
    document. *)
Theorem run_statistics_match_log s (w : W) fuel :
  let '(r, (s', _), out) := run fuel (s, w) in
  errors (stats s') = errors (stats s) + errors_logged out
  ∧ groundtruth_updated (stats s) ≤ groundtruth_updated (stats s')
  ∧ user_clothes_updated (stats s) ≤ user_clothes_updated (stats s')
  ∧ counted s s' ≤ count_modified out.
Proof.
  destruct ((connect_db (s, w)).1.1) as [[|]|e] eqn:Hconn.
  - destruct (run_connected fuel s w Hconn)
      as (c & d & w1 & r & s2 & w2 & outp & _ & _ & _ & Hpost & Hclient & ->).
    destruct Hpost as [(n & Hpre & _) Hr].
    destruct Hpre as (_ & Hgt & Huc & Hle & Herr & Hloop & _).
    destruct (run_prefix_measures (poll_interval s) (connect_db (s, w)).2 outp
                (EvLog INFO (MPollingInterval (poll_interval s))) (EvLog INFO MRunning)
                (connect_db_events s w) eq_refl eq_refl Hloop) as (He & Hc & _ & _).
    cbv zeta in He, Hc. unfold counted in *. simpl in Hgt, Huc, Hle, Herr.
    unfold run_end. cbn [fst snd]. rewrite Hclient.
    destruct r as [[|]|e]; [| |destruct e]; cbn [fst snd];
      rewrite ?errors_logged_app, ?count_modified_app, ?He, ?Hc;
      rewrite ?errors_logged_cons, ?count_modified_cons, ?errors_logged_app,
        ?count_modified_app;
      change (errors_logged (summary (stats s2))) with 0;
      change (count_modified (summary (stats s2))) with 0;
      change (errors_logged closing) with 0;
      change (count_modified closing) with 0;
      simpl; lia.
  - rewrite run_eq. pose proof (connect_db_run s w) as Hrun.
    pose proof (connect_db_events s w) as Hev.
    destruct (connect_db (s, w)) as [[rc [s1 w1]] outc]. simpl in Hconn, Hev.
    subst rc. unfold counted. destruct Hrun as (-> & _).
    rewrite errors_logged_cons, errors_logged_app, count_modified_cons, count_modified_app.
    rewrite (errors_logged_none is_connect_event outc)
      by (done || intros e He; by apply is_connect_event_quiet in He as (? & _)).
    rewrite (count_modified_none is_connect_event outc)
      by (done || intros e He; by apply is_connect_event_quiet in He as (_ & _ & ?)).
    change (errors_logged [_]) with 0. change (count_modified [_]) with 0.
    simpl. lia.
  - rewrite run_eq. pose proof (connect_db_run s w) as Hrun.
    pose proof (connect_db_events s w) as Hev.
    destruct (connect_db (s, w)) as [[rc [s1 w1]] outc]. simpl in Hconn, Hev.
    subst rc. unfold counted. destruct Hrun as (-> & _).
    rewrite errors_logged_cons, count_modified_cons.
    rewrite (errors_logged_none is_connect_event outc)
      by (done || intros e' He; by apply is_connect_event_quiet in He as (? & _)).
    rewrite (count_modified_none is_connect_event outc)
      by (done || intros e' He; by apply is_connect_event_quiet in He as (_ & _ & ?)).
    simpl. lia.
Qed.

(** X19. [run] sleeps in every turn of its loop, [poll_interval] seconds
    each time. Every sleep is of that length; a turn sleeps once, or twice
    when the sleep after the check raises an [Exception] and the handler
    sleeps again: after [fuel] turns that left the loop running there were
    at least [fuel] sleeps, and there are never more than [2 * fuel]. *)
Theorem run_sleeps_every_turn s (w : W) fuel :
  let '(r, _, out) := run fuel (s, w) in
  Forall (fun e => ∀ n a, e = EvSleep n a → n = poll_interval s) out
  ∧ (List.length (sleeps out) ≤ 2 * fuel)%nat
  ∧ (r = Ok StillPolling → (fuel ≤ List.length (sleeps out))%nat).
Proof.
  assert (∀ out, Forall (fun e => is_connect_event e = true) out →
                 Forall (fun e => ∀ n a, e = EvSleep n a → n = poll_interval s) out)
    as Hquiet.
  { intros out Hout. eapply Forall_impl; [done|]. by intros e He n a ->. }
  destruct ((connect_db (s, w)).1.1) as [[|]|e] eqn:Hconn.
  - destruct (run_connected fuel s w Hconn)
      as (c & d & w1 & r & s2 & w2 & outp & _ & _ & _ & Hpost & Hclient & ->).
    destruct Hpost as [(n & Hpre & Hn & Hfuel) Hr].
    destruct Hpre as (_ & _ & _ & _ & _ & Hloop & Hslept).
    destruct (run_prefix_measures (poll_interval s) (connect_db (s, w)).2 outp
                (EvLog INFO (MPollingInterval (poll_interval s))) (EvLog INFO MRunning)
                (connect_db_events s w) eq_refl eq_refl Hloop) as (_ & _ & Hs & Hrun).
    cbv zeta in Hs, Hrun.
    assert (Forall (fun e => ∀ n a, e = EvSleep n a → n = poll_interval s)
              (EvLog INFO MStarting
               :: (connect_db (s, w)).2 ++ EvLog INFO (MPollingInterval (poll_interval s))
               :: EvLog INFO MRunning :: outp)) as Hpre.
    { eapply Forall_impl; [done|]. intros e He.
      by destruct (is_running_event_spec _ _ He) as (_ & _ & _ & ?). }
    unfold run_end. cbn [fst snd]. rewrite Hclient.
    destruct r as [[|]|e]; [| |destruct e]; cbn [fst snd];
      rewrite ?sleeps_app, ?length_app, ?Hs, ?Hslept;
      (split; [rewrite ?Forall_app; repeat split; try done; by repeat constructor|]);
      try change (sleeps closing) with (@nil event);
      try change (sleeps (EvLog INFO MShuttingDown :: summary (stats s2)))
        with (@nil event);
      simpl; (split; [lia|]); try done.
    intros _. by apply (Hfuel StillPolling).
  - rewrite run_eq. pose proof (connect_db_events s w) as Hev.
    destruct (connect_db (s, w)) as [[rc [s1 w1]] outc]. simpl in Hconn, Hev.
    subst rc. split.
    { constructor; [done|]. apply Forall_app. split; [by apply Hquiet|].
      by repeat constructor. }
    change (EvLog INFO MStarting :: outc ++ [EvLog ERROR MExiting])
      with ([EvLog INFO MStarting] ++ outc ++ [EvLog ERROR MExiting]).
    rewrite !sleeps_app, (sleeps_none is_connect_event outc)
      by (done || intros e He; by apply is_connect_event_quiet in He as (_ & ? & _)).
    simpl. split; [lia|done].
  - rewrite run_eq. pose proof (connect_db_events s w) as Hev.
    destruct (connect_db (s, w)) as [[rc [s1 w1]] outc]. simpl in Hconn, Hev.
    subst rc. split; [constructor; [done|by apply Hquiet]|].
    change (EvLog INFO MStarting :: outc) with ([EvLog INFO MStarting] ++ outc).
    rewrite !sleeps_app, (sleeps_none is_connect_event outc)
      by (done || intros e' He; by apply is_connect_event_quiet in He as (_ & ? & _)).
    simpl. split; [lia|done].
Qed.

End RunTheorems.

(** ** Runs in memory *)

(** A document with an empty string, [None] and a number under listed
    fields, and the empty string for old URL. *)
Lemma replace_url_in_dict_unmodified_witness :
  (replace_url_in_dict "" "X"
     {["minioUrl" := VStr ""; "s3Url" := VNull; "size" := VInt 3]}
     ["minioUrl"; "s3Url"; "size"; "name"]).1
  = {["minioUrl" := VStr ""; "s3Url" := VNull; "size" := VInt 3]}.
Proof. apply replace_url_in_dict_unmodified. by_evaluation. Defined.

(** The two fields of [shirt], in either order. *)
Lemma replace_url_in_dict_permutation_witness :
  replace_url_in_dict "http://OLD" "https://NEW" Examples.shirt ["name"; "minioUrl"]
  = replace_url_in_dict "http://OLD" "https://NEW" Examples.shirt ["minioUrl"; "name"].
Proof. apply replace_url_in_dict_permutation. apply perm_swap. Defined.

(** The ground-truth pass over the store of the examples. *)
Lemma pass_queries_once_witness :
  ∃ out,
    (process_collection Groundtruth (Examples.service, Examples.store [])).2
    = EvFind "imageUrl" (candidate_query "http://OLD" (url_fields Groundtruth)) :: out
    ∧ Forall (fun e => is_pass_event Groundtruth "imageUrl" e = true) out.
Proof.
  apply (pass_queries_once (W := Mem.mem) Groundtruth Examples.service
           (Examples.store []) (Coll (Db (Client "mongodb://localhost:27017/") "wearapp")
                                  "imageUrl")).
  reflexivity.
Defined.

(** A run in memory that is interrupted in its second sleep. *)
Lemma run_closes_client_witness :
  let '(r, (s', w'), out) :=
    run 5 (init, Mem.Mk [("userUploadedClothes", Examples.upload)] 100 [] [false; true]) in
  match r with
  | Ok StillPolling => EvClose ∉ out
  | Ok Returned =>
      ∃ pre c w2,
        out = pre ++ EvLog INFO MShuttingDown :: summary (stats s') ++ closing
        ∧ Forall (fun e => e ≠ EvClose ∧ is_stats_record e = false
                           ∧ e ≠ EvLog INFO MShuttingDown) pre
        ∧ (new_client (mongo_uri init)
             (Mem.Mk [("userUploadedClothes", Examples.upload)] 100 [] [false; true])).1
          = Ok c
        ∧ client s' = Some c ∧ w' = close c w2
  | Raise e =>
      e ≠ KeyboardInterrupt
      ∧ ∃ pre c w2,
          out = pre ++ closing
          ∧ Forall (fun e => e ≠ EvClose ∧ is_stats_record e = false
                             ∧ e ≠ EvLog INFO MShuttingDown) pre
          ∧ (new_client (mongo_uri init)
               (Mem.Mk [("userUploadedClothes", Examples.upload)] 100 [] [false; true])).1
            = Ok c
          ∧ client s' = Some c ∧ w' = close c w2
  end.
Proof.
  apply (run_closes_client (W := Mem.mem) init
           (Mem.Mk [("userUploadedClothes", Examples.upload)] 100 [] [false; true]) 5).
  by_evaluation.
Defined.

(** A ground-truth document without [_id] makes every cycle fail with
    [KeyError]: the failure is logged and counted, the loop sleeps and goes
    on, and the user clothes are never queried. The second failed cycle is
    interrupted in the sleep of its handler. *)
Example cycle_error_keeps_polling :
  let w :=
    Mem.Mk [("imageUrl", {["minioUrl" := VStr "http://155.248.254.206:9000/x.png"]});
            ("userUploadedClothes",
             {["_id" := VInt 7; "imageUrl" := VStr "http://155.248.254.206:9000/u.png"]})]
           100 [] [false; true] in
  (main 5 w).1.1 = Ok Returned
  ∧ stats (main 5 w).1.2.1 = Stats 0 0 2 None
  ∧ omap (fun e => match e with
                   | EvFind c _ => Some (c, Ok tt)
                   | EvSleep _ a => Some ("sleep", a)
                   | EvLog ERROR MCycleError => Some ("error", Ok tt)
                   | _ => None
                   end) (main 5 w).2
    = [("imageUrl", Ok tt); ("error", Ok tt); ("sleep", Ok tt);
       ("imageUrl", Ok tt); ("error", Ok tt); ("sleep", Raise KeyboardInterrupt)]
  ∧ update_calls (main 5 w).2 = [].
Proof. by_evaluation. Qed.
